(** * Bomb party: the game state machine of [helper_objects.py]

    A shallow embedding of the classes [BombPartyPlayer] and [BombParty]
    and proofs about the countdown, the turn order, word validation,
    the settings store and the winner; then of [Scramble] and
    [ScrambleManager], with proofs about new answers, hints and guesses.

    Conventions of the embedding
    - Python [int] is [Z]; clock readings and the countdown (a [float]
      once a decay has been applied) are exact rationals [Q].
    - Python [str] is [string], a sequence of characters.
    - The [party] dict is an association list in insertion order; the
      player objects it holds are updated in place under their key.
    - [perf_counter()] and the random draws are explicit arguments.
    - [int(str)], a builtin, is a parameter [py_int] of the operations
      that use it ([None] stands for [ValueError]).  So are [str.lower],
      as [py_lower], and the floating-point arithmetic of the reward of
      a guess, as [py_reward]: what is proved holds whatever these
      functions are. *)

From Stdlib Require Import ZArith QArith Qminmax Qround Lia Lqa Permutation Ascii String.
From stdpp Require Import base list strings pretty.

Local Open Scope Z_scope.

(** ** Python builtins used by the source *)

Module Py.

(** ASCII case folding: what [str.lower] does to a text of ASCII
    characters.  It stands for the parameter [py_lower] in examples on
    such texts. *)
Definition ascii_fold_char (c : ascii) : ascii :=
  let n := nat_of_ascii c in
  if ((65 <=? n)%nat && (n <=? 90)%nat)%bool then ascii_of_nat (n + 32) else c.

Fixpoint ascii_fold (s : string) : string :=
  match s with
  | EmptyString => EmptyString
  | String c s' => String (ascii_fold_char c) (ascii_fold s')
  end.

(** Three characters outside ASCII, for examples.  The sharp s, U+00DF,
    is the character of its number.  The characters of a [string] have
    numbers below 256: the two of number 1 and 2, control characters that
    no text of the examples uses, stand for U+0130, the capital I with a
    dot above, and for U+0307, the combining dot above. *)
Definition sharp_s : ascii := ascii_of_nat 223.
Definition dotted_I : ascii := ascii_of_nat 1.
Definition dot_above : ascii := ascii_of_nat 2.

(** [str.lower] and [str.upper] on texts made of the letters and digits
    of ASCII and of these three characters: [lower] leaves the sharp s
    and turns the capital I with a dot above into an i and a combining
    dot, so the text gets longer; [upper] turns the sharp s into two
    capital S.  They stand for [str.lower] and [str.upper] in examples on
    such texts. *)
Fixpoint lower_sample (s : string) : string :=
  match s with
  | EmptyString => EmptyString
  | String c s' =>
      if Ascii.eqb c dotted_I then String "i" (String dot_above (lower_sample s'))
      else String (ascii_fold_char c) (lower_sample s')
  end.

Definition upper_ascii_char (c : ascii) : ascii :=
  let n := nat_of_ascii c in
  if ((97 <=? n)%nat && (n <=? 122)%nat)%bool then ascii_of_nat (n - 32) else c.

Fixpoint upper_sample (s : string) : string :=
  match s with
  | EmptyString => EmptyString
  | String c s' =>
      if Ascii.eqb c sharp_s then String "S" (String "S" (upper_sample s'))
      else String (upper_ascii_char c) (upper_sample s')
  end.

(** [frag in msg] on strings: [frag] occurs as a contiguous block. *)
Fixpoint contains (frag msg : string) : bool :=
  String.prefix frag msg
  || match msg with
     | EmptyString => false
     | String _ msg' => contains frag msg'
     end.

(** [s * n] for a string [s] and an integer [n] (empty when [n <= 0]). *)
Definition repeat_str (s : string) (n : Z) : string :=
  Nat.iter (Z.to_nat n) (String.append s) EmptyString.

(** [sep.join(l)]. *)
Fixpoint join (sep : string) (l : list string) : string :=
  match l with
  | [] => EmptyString
  | [x] => x
  | x :: l' => x +:+ sep +:+ join sep l'
  end.

(** [str(n)] for an integer. *)
Definition str_of_int (n : Z) : string := pretty n.

(** [max((0, x))]: the first maximal element of the pair. *)
Definition max0 (x : Q) : Q := Qmax 0 x.

(** A reading of [int(s)] for ASCII input: surrounding blanks are
    dropped, one sign is allowed, then decimal digits.  It is used to
    instantiate the parameter [py_int] on concrete inputs. *)
Definition is_blank (c : ascii) : bool :=
  let n := nat_of_ascii c in
  ((n =? 32)%nat || ((9 <=? n)%nat && (n <=? 13)%nat))%bool.

Fixpoint lstrip (s : string) : string :=
  match s with
  | String c s' => if is_blank c then lstrip s' else s
  | EmptyString => EmptyString
  end.

Fixpoint rstrip (s : string) : string :=
  match s with
  | EmptyString => EmptyString
  | String c s' =>
      match rstrip s' with
      | EmptyString => if is_blank c then EmptyString else String c EmptyString
      | r => String c r
      end
  end.

Definition digit_of (c : ascii) : option Z :=
  let n := nat_of_ascii c in
  if ((48 <=? n)%nat && (n <=? 57)%nat)%bool then Some (Z.of_nat (n - 48)) else None.

Fixpoint digits (acc : Z) (s : string) : option Z :=
  match s with
  | EmptyString => Some acc
  | String c s' =>
      match digit_of c with
      | Some d => digits (10 * acc + d) s'
      | None => None
      end
  end.

Definition unsigned (s : string) : option Z :=
  match s with
  | EmptyString => None
  | _ => digits 0 s
  end.

Definition int_ascii (s : string) : option Z :=
  match rstrip (lstrip s) with
  | String "-" s' => Z.opp <$> unsigned s'
  | String "+" s' => unsigned s'
  | s' => unsigned s'
  end.

End Py.

(** ** [class BombPartyPlayer] *)

Module BombPartyPlayer.

Record t := mk { user : string; lives : Z }.

(** [@property dead] *)
Definition dead (p : t) : bool := lives p =? 0.

(** [__str__] *)
Definition to_str (p : t) : string :=
  user p +:+ " (" +:+ Py.repeat_str "♥" (lives p) +:+ ")".

Definition with_lives (v : Z) (p : t) : t := mk (user p) v.

End BombPartyPlayer.

(** ** The settings dict

    [bomb_settings] always has the four keys of [default_settings], and
    [set_setting] keeps the type of each value, so the dict is a record. *)

Module Settings.

Record t := mk { difficulty : string; timer : Z; minimum_time : Z; lives : Z }.

Inductive key := Difficulty | Timer | MinimumTime | Lives.

Definition key_name (k : key) : string :=
  match k with
  | Difficulty => "difficulty"
  | Timer => "timer"
  | MinimumTime => "minimum_time"
  | Lives => "lives"
  end.

(** The keys in the order of the dict. *)
Definition keys : list key := [Difficulty; Timer; MinimumTime; Lives].

(** [setting in self.bomb_settings] *)
Definition key_of_string (name : string) : option key :=
  List.find (fun k => String.eqb name (key_name k)) keys.

(** The Python type of the value stored under a key. *)
Definition value (k : key) : Type :=
  match k with
  | Difficulty => string
  | _ => Z
  end.

Definition put (k : key) : value k -> t -> t :=
  match k with
  | Difficulty => fun v b => mk v (timer b) (minimum_time b) (lives b)
  | Timer => fun v b => mk (difficulty b) v (minimum_time b) (lives b)
  | MinimumTime => fun v b => mk (difficulty b) (timer b) v (lives b)
  | Lives => fun v b => mk (difficulty b) (timer b) (minimum_time b) v
  end.

(** [range(lo, hi)] membership. *)
Definition in_range (lo hi v : Z) : bool := (lo <=? v) && (v <? hi).

(** [value in self.valid_bomb_settings[setting]] *)
Definition valid (k : key) : value k -> bool :=
  match k with
  | Difficulty => fun v =>
      bool_decide (v ∈ ["easy"; "medium"; "hard"; "nightmare"; "impossible"])
  | Timer => in_range 5 (60 + 1)
  | MinimumTime => in_range 0 (10 + 1)
  | Lives => in_range 1 (5 + 1)
  end.

(** [f"{value}"] *)
Definition show (k : key) : value k -> string :=
  match k with
  | Difficulty => fun v => v
  | _ => Py.str_of_int
  end.

(** [default_settings] *)
Definition default : t := mk "medium" 30 5 3.

End Settings.

(** ** [random.shuffle] and [random.choice]

    The random source is a function [rand]: a request for a number below
    [n] is answered by [rand n mod n]. *)

Module Random.

Definition source := nat -> nat.

Definition randbelow (rand : source) (n : nat) : nat := (rand n mod n)%nat.

(** [x[i], x[j] = x[j], x[i]] *)
Definition swap {A} (i j : nat) (x : list A) : list A :=
  match x !! i, x !! j with
  | Some a, Some b => <[j:=a]> (<[i:=b]> x)
  | _, _ => x
  end.

(** The loop of [shuffle]: [for i in reversed(range(1, n + 1))]. *)
Fixpoint shuffle_from {A} (rand : source) (n : nat) (x : list A) : list A :=
  match n with
  | O => x
  | S n' => shuffle_from rand n' (swap n (randbelow rand (n + 1)) x)
  end.

Definition shuffle {A} (rand : source) (x : list A) : list A :=
  shuffle_from rand (length x - 1) x.

(** [random.choice(seq)]; [None] is the [IndexError] on an empty list. *)
Definition choice {A} (rand : source) (seq : list A) : option A :=
  match seq with
  | [] => None
  | _ => seq !! randbelow rand (length seq)
  end.

End Random.

(** ** [class BombParty] *)

Module BombParty.

Import BombPartyPlayer.

Definition player := BombPartyPlayer.t.

Record t := mk {
  bomb_party_letters : list (string * list string);
  in_progress : bool;
  started : bool;
  used_words : list string;
  party : list (string * player);
  current_player_index : nat;
  current_letters : string;
  bomb_start_time : Q;
  turn_order : list string;
  timer : Q;
  bomb_settings : Settings.t
}.

(** Attribute assignment, one function per attribute that is written. *)
Definition set_in_progress (v : bool) (s : t) : t :=
  mk (bomb_party_letters s) v (started s) (used_words s) (party s)
     (current_player_index s) (current_letters s) (bomb_start_time s)
     (turn_order s) (timer s) (bomb_settings s).
Definition set_started (v : bool) (s : t) : t :=
  mk (bomb_party_letters s) (in_progress s) v (used_words s) (party s)
     (current_player_index s) (current_letters s) (bomb_start_time s)
     (turn_order s) (timer s) (bomb_settings s).
Definition set_used_words (v : list string) (s : t) : t :=
  mk (bomb_party_letters s) (in_progress s) (started s) v (party s)
     (current_player_index s) (current_letters s) (bomb_start_time s)
     (turn_order s) (timer s) (bomb_settings s).
Definition set_party (v : list (string * player)) (s : t) : t :=
  mk (bomb_party_letters s) (in_progress s) (started s) (used_words s) v
     (current_player_index s) (current_letters s) (bomb_start_time s)
     (turn_order s) (timer s) (bomb_settings s).
Definition set_current_player_index (v : nat) (s : t) : t :=
  mk (bomb_party_letters s) (in_progress s) (started s) (used_words s) (party s)
     v (current_letters s) (bomb_start_time s)
     (turn_order s) (timer s) (bomb_settings s).
Definition set_current_letters (v : string) (s : t) : t :=
  mk (bomb_party_letters s) (in_progress s) (started s) (used_words s) (party s)
     (current_player_index s) v (bomb_start_time s)
     (turn_order s) (timer s) (bomb_settings s).
Definition set_bomb_start_time (v : Q) (s : t) : t :=
  mk (bomb_party_letters s) (in_progress s) (started s) (used_words s) (party s)
     (current_player_index s) (current_letters s) v
     (turn_order s) (timer s) (bomb_settings s).
Definition set_turn_order (v : list string) (s : t) : t :=
  mk (bomb_party_letters s) (in_progress s) (started s) (used_words s) (party s)
     (current_player_index s) (current_letters s) (bomb_start_time s)
     v (timer s) (bomb_settings s).
Definition set_timer (v : Q) (s : t) : t :=
  mk (bomb_party_letters s) (in_progress s) (started s) (used_words s) (party s)
     (current_player_index s) (current_letters s) (bomb_start_time s)
     (turn_order s) v (bomb_settings s).
Definition set_bomb_settings (v : Settings.t) (s : t) : t :=
  mk (bomb_party_letters s) (in_progress s) (started s) (used_words s) (party s)
     (current_player_index s) (current_letters s) (bomb_start_time s)
     (turn_order s) (timer s) v.

(** *** The [party] dict *)

(** [list(party.keys())] and [party.values()] *)
Definition party_keys (p : list (string * player)) : list string := p.*1.
Definition party_values (p : list (string * player)) : list player := p.*2.

(** [party[u]]; [None] is the [KeyError]. *)
Fixpoint party_get (u : string) (p : list (string * player)) : option player :=
  match p with
  | [] => None
  | (k, v) :: p' => if String.eqb k u then Some v else party_get u p'
  end.

(** [u in party] *)
Definition party_has (u : string) (p : list (string * player)) : bool :=
  match party_get u p with Some _ => true | None => false end.

(** [del party[u]] *)
Definition party_del (u : string) (p : list (string * player)) : list (string * player) :=
  List.filter (fun kv => negb (String.eqb kv.1 u)) p.

(** An in-place update of the player object stored under [u]. *)
Definition party_alter (f : player -> player) (u : string)
    (p : list (string * player)) : list (string * player) :=
  List.map (fun kv => if String.eqb kv.1 u then (kv.1, f kv.2) else kv) p.

(** *** Results of calls that can raise or loop *)

Inductive exn := AttributeError | IndexError | KeyError.

Inductive res (A : Type) := Val (a : A) | Exc (e : exn).
Arguments Val {A} a.
Arguments Exc {A} e.

(** The outcome of a call: a value and the state after it, an exception
    and the state at the moment it was raised, or no answer within the
    given number of loop iterations. *)
Inductive outcome (A : Type) :=
| Ok (a : A) (s : t)
| Raise (e : exn) (s : t)
| OutOfFuel.
Arguments Ok {A} a s.
Arguments Raise {A} e s.
Arguments OutOfFuel {A}.

(** *** Construction and reset *)

(** [set_default_values] *)
Definition set_default_values (s : t) : t :=
  mk (bomb_party_letters s) false false [] [] 0 "" 0%Q [] 30%Q Settings.default.

(** [__init__], given the letter pools read from the data files. *)
Definition init (letters : list (string * list string)) : t :=
  mk letters false false [] [] 0 "" 0%Q [] 30%Q Settings.default.

(** *** Players *)

Definition add_player (u : string) (s : t) : t :=
  if negb (party_has u (party s))
  then set_party (party s ++ [(u, BombPartyPlayer.mk u (Settings.lives (bomb_settings s)))]) s
  else s.

Definition remove_player (u : string) (s : t) : t :=
  if party_has u (party s)
  then if started s
       then set_party (party_alter (with_lives 0) u (party s)) s
       else set_party (party_del u (party s)) s
  else s.

Definition on_in_progress (s : t) : t := set_in_progress true s.

(** *** Rounds *)

Definition on_start (rand : Random.source) (now : Q) (s : t) : t :=
  let s := set_turn_order (party_keys (party s)) s in
  let s := set_turn_order (Random.shuffle rand (turn_order s)) s in
  let s := set_timer (inject_Z (Settings.timer (bomb_settings s))) s in
  let s := set_bomb_start_time now s in
  set_started true s.

Definition on_word_used (py_lower : string -> string) (message : string) (now : Q)
    (s : t) : t :=
  let message := py_lower message in
  let s := set_timer
             (timer s - Py.max0 (now - bomb_start_time s
                                 - inject_Z (Settings.minimum_time (bomb_settings s))))%Q s in
  set_used_words (used_words s ++ [message]) s.

(** The key under which the current player is stored:
    [self.turn_order[self.current_player_index]]. *)
Definition current_key (s : t) : res (option string) :=
  if (length (turn_order s) =? 0)%nat then Val None
  else match turn_order s !! current_player_index s with
       | None => Exc IndexError
       | Some u => Val (Some u)
       end.

(** The player at a position of the turn order:
    [self.party[self.turn_order[i]]]. *)
Definition player_at (s : t) (i : nat) : option player :=
  match turn_order s !! i with
  | Some u => party_get u (party s)
  | None => None
  end.

(** [@property current_player] *)
Definition current_player (s : t) : res (option player) :=
  match current_key s with
  | Exc e => Exc e
  | Val None => Val None
  | Val (Some u) =>
      match party_get u (party s) with
      | None => Exc KeyError
      | Some p => Val (Some p)
      end
  end.

Definition explode_message (p : player) : string :=
  "@" +:+ user p +:+ " " +:+
  (if negb (lives p =? 0)
   then "You ran out of time and now have " +:+ Py.str_of_int (lives p) +:+ " "
        +:+ Py.repeat_str "♥" (lives p) +:+ " heart(s) left"
   else "You ran out of time and lost all your lives! YouDied").

Definition on_explode (s : t) : outcome string :=
  let s := set_timer (inject_Z (Settings.timer (bomb_settings s))) s in
  let s := set_bomb_start_time 0%Q s in
  match current_key s, current_player s with
  | Val (Some u), Val (Some p) =>
      let s := set_party (party_alter (with_lives (lives p - 1)) u (party s)) s in
      Ok (explode_message (with_lives (lives p - 1) p)) s
  | _, Exc e => Raise e s
  | _, _ => Raise AttributeError s
  end.

(** [on_close] *)
Definition on_close (s : t) : t := set_default_values s.

(** One step of the index in [next_player]:
    [1 + i if i != len(turn_order) - 1 else 0]. *)
Definition succ_index (s : t) : nat :=
  if Z.of_nat (current_player_index s) =? Z.of_nat (length (turn_order s)) - 1
  then 0%nat
  else (1 + current_player_index s)%nat.

(** The [while] loop of [next_player], run for at most [fuel] tests of
    its condition. *)
Fixpoint next_player_loop (fuel : nat) (who : string) (s : t) : outcome unit :=
  match fuel with
  | O => OutOfFuel
  | S fuel' =>
      match current_player s with
      | Exc e => Raise e s
      | Val None => Raise AttributeError s
      | Val (Some p) =>
          if (lives p =? 0) || String.eqb (user p) who
          then next_player_loop fuel' who (set_current_player_index (succ_index s) s)
          else Ok tt s
      end
  end.

Definition next_player (fuel : nat) (now : Q) (s : t) : outcome unit :=
  match current_player s with
  | Exc e => Raise e s
  | Val None => Raise AttributeError s
  | Val (Some p) =>
      match next_player_loop fuel (user p) s with
      | Ok _ s => Ok tt (set_bomb_start_time now s)
      | o => o
      end
  end.

(** [self.bomb_party_letters[difficulty]] *)
Fixpoint letters_get (d : string) (l : list (string * list string)) : option (list string) :=
  match l with
  | [] => None
  | (k, v) :: l' => if String.eqb k d then Some v else letters_get d l'
  end.

Definition set_letters (rand : Random.source) (s : t) : outcome unit :=
  match letters_get (Settings.difficulty (bomb_settings s)) (bomb_party_letters s) with
  | None => Raise KeyError s
  | Some pool =>
      match Random.choice rand pool with
      | None => Raise IndexError s
      | Some f => Ok tt (set_current_letters f s)
      end
  end.

(** [get_winner]; it only reads the state. *)
Definition get_winner (s : t) : option player :=
  let players_left := List.filter (fun p => negb (lives p =? 0)) (party_values (party s)) in
  if (length players_left =? 1)%nat then players_left !! 0%nat else None.

(** *** Settings *)

Definition on_lives_set (s : t) : t :=
  set_party
    (List.fold_left (fun p u => party_alter (with_lives (Settings.lives (bomb_settings s))) u p)
                    (party_keys (party s)) (party s))
    s.

(** [self.bomb_setting_functions] *)
Definition bomb_setting_functions (k : Settings.key) : option (t -> t) :=
  match k with
  | Settings.Lives => Some on_lives_set
  | _ => None
  end.

Definition msg_invalid_setting : string :=
  "That's not a valid setting. Valid settings: "
  +:+ Py.join ", " (Settings.key_name <$> Settings.keys).
Definition msg_invalid_value : string := "That's not a valid value for this setting.".
Definition msg_value_error : string :=
  "There was a problem processing the value you gave for the specific setting.".
Definition msg_changed (k : Settings.key) (v : Settings.value k) : string :=
  "The " +:+ Settings.key_name k +:+ " setting has been changed to " +:+ Settings.show k v.

(** The three answers of [set_setting] that report a failure. *)
Definition setting_failure (m : string) : Prop :=
  m = msg_invalid_setting \/ m = msg_value_error \/ m = msg_invalid_value.

Section SetSetting.

(** [int(value)] on a string; [None] is [ValueError]. *)
Variable py_int : string -> option Z.

(** [type(self.bomb_settings[setting])(value)] *)
Definition coerce (k : Settings.key) (raw : string) : option (Settings.value k) :=
  match k return option (Settings.value k) with
  | Settings.Difficulty => Some raw
  | Settings.Timer => py_int raw
  | Settings.MinimumTime => py_int raw
  | Settings.Lives => py_int raw
  end.

(** [set_setting].  The [try] block can raise on a string only where it
    converts the value; [coerce] answering [None] is that [ValueError],
    and the handler turns it into a message. *)
Definition set_setting (setting value : string) (s : t) : string * t :=
  match Settings.key_of_string setting with
  | None => (msg_invalid_setting, s)
  | Some k =>
      match coerce k value with
      | None => (msg_value_error, s)
      | Some v =>
          if negb (Settings.valid k v) then (msg_invalid_value, s)
          else
            let s := set_bomb_settings (Settings.put k v (bomb_settings s)) s in
            let s := match bomb_setting_functions k with
                     | Some f => f s
                     | None => s
                     end in
            (msg_changed k v, s)
      end
  end.

End SetSetting.

(** *** Word validation *)

Definition msg_used : string := "That word has already been used.".
Definition msg_missing (letters : string) : string :=
  "That word does not contain your string of letters: " +:+ letters.
Definition msg_trivial : string := "You cannot answer with the string of letters itself.".

(** [check_message]; the second component is the state after the call. *)
Definition check_message (py_lower : string -> string) (message : string) (s : t)
    : option string * t :=
  let message := py_lower message in
  if bool_decide (message ∈ used_words s) then (Some msg_used, s)
  else if negb (Py.contains (current_letters s) message)
       then (Some (msg_missing (current_letters s)), s)
  else if (String.length message =? String.length (current_letters s))%nat
       then (Some msg_trivial, s)
  else (None, s).

(** *** Read-only properties *)

(** [@property player_list] *)
Definition player_list (s : t) : list player := party_values (party s).

(** [@property can_start] *)
Definition can_start (s : t) : bool := (2 <=? length (party s))%nat.

(** [@property host]; [None] is the [IndexError] on an empty party. *)
Definition host (s : t) : option string := party_keys (party s) !! 0%nat.

(** [@property winning_money] *)
Definition winning_money (s : t) : Z := Z.of_nat (length (party s)) * 100.

(** [@property seconds_left] and [@property starting_time] *)
Definition seconds_left (s : t) : Q :=
  (timer s + inject_Z (Settings.minimum_time (bomb_settings s)))%Q.
Definition starting_time (s : t) : Q :=
  (timer s + inject_Z (Settings.minimum_time (bomb_settings s)))%Q.

(** *** The letter pools

    [construct_bomb_party_letters], given the two objects read from the
    data files: each maps a string of letters to a number of words. *)

(** [d[k] = v] on a dict kept in insertion order. *)
Fixpoint dict_set (k : string) (v : Z) (d : list (string * Z)) : list (string * Z) :=
  match d with
  | [] => [(k, v)]
  | (k', v') :: d' =>
      if String.eqb k' k then (k', v) :: d' else (k', v') :: dict_set k v d'
  end.

(** [d.update(d2)] *)
Definition dict_update (d d2 : list (string * Z)) : list (string * Z) :=
  List.fold_left (fun d kv => dict_set kv.1 kv.2 d) d2 d.

(** [[let for let, amount in letters.items() if test]] *)
Definition letters_where (test : string -> Z -> bool) (letters : list (string * Z)) : list string :=
  (List.filter (fun kv => test kv.1 kv.2) letters).*1.

Definition construct_bomb_party_letters (two three : list (string * Z))
    : list (string * list string) :=
  let letters := dict_update two three in
  [ ("easy", letters_where (fun l amount =>
       (amount >=? 10000) && negb (Py.contains "-" l)) letters);
    ("medium", letters_where (fun l amount =>
       ((10000 >? amount) && (amount >=? 5000)) && negb (Py.contains "-" l)) letters);
    ("hard", letters_where (fun l amount =>
       ((5000 >? amount) && (amount >=? 1000))
       || ((amount >=? 5000) && Py.contains "-" l)) letters);
    ("nightmare", letters_where (fun l amount =>
       (1000 >? amount) && (amount >=? 500)) letters);
    ("impossible", letters_where (fun l amount => 500 >? amount) letters) ].

End BombParty.

(** ** Sequences of calls

    The host drives a game through the methods of [BombParty].  A call
    that raises leaves the object in the state reached when the exception
    was raised; a call that does not return has no state after it. *)

Module Host.

Import BombParty.

Inductive call :=
| AddPlayer (u : string)
| RemovePlayer (u : string)
| OnInProgress
| OnStart (rand : Random.source) (now : Q)
| OnWordUsed (message : string) (now : Q)
| OnExplode
| OnClose
| NextPlayer (now : Q)
| SetLetters (rand : Random.source)
| SetSetting (setting value : string)
| CheckMessage (message : string).

Definition final {A} (o : outcome A) : option BombParty.t :=
  match o with
  | Ok _ s => Some s
  | Raise _ s => Some s
  | OutOfFuel => None
  end.

Section Run.

Variable py_int : string -> option Z.

(** [str.lower] *)
Variable py_lower : string -> string.

(** The state after one call. *)
Definition exec (fuel : nat) (c : call) (s : BombParty.t) : option BombParty.t :=
  match c with
  | AddPlayer u => Some (add_player u s)
  | RemovePlayer u => Some (remove_player u s)
  | OnInProgress => Some (on_in_progress s)
  | OnStart rand now => Some (on_start rand now s)
  | OnWordUsed m now => Some (on_word_used py_lower m now s)
  | OnExplode => final (on_explode s)
  | OnClose => Some (on_close s)
  | NextPlayer now => final (next_player fuel now s)
  | SetLetters rand => final (set_letters rand s)
  | SetSetting n v => Some (set_setting py_int n v s).2
  | CheckMessage m => Some (check_message py_lower m s).2
  end.

(** The state after a sequence of calls, each of them allowed by the
    protocol [guard] of the host in the state it is made in. *)
Fixpoint run (guard : BombParty.t -> call -> bool) (fuel : nat)
    (cs : list call) (s : BombParty.t) : option BombParty.t :=
  match cs with
  | [] => Some s
  | c :: cs' =>
      if guard s c
      then match exec fuel c s with
           | Some s' => run guard fuel cs' s'
           | None => None
           end
      else None
  end.

End Run.

(** No restriction on the calls. *)
Definition any_call (s : BombParty.t) (c : call) : bool := true.

(** A word is recorded only when [check_message] accepted it. *)
Definition checked_words (py_lower : string -> string) (s : BombParty.t) (c : call)
    : bool :=
  match c with
  | OnWordUsed m _ =>
      match (check_message py_lower m s).1 with
      | None => true
      | Some _ => false
      end
  | _ => true
  end.

(** The bomb explodes only on a current player who still has a life. *)
Definition live_explosions (s : BombParty.t) (c : call) : bool :=
  match c with
  | OnExplode =>
      match current_player s with
      | Val (Some p) => 0 <? BombPartyPlayer.lives p
      | _ => true
      end
  | _ => true
  end.

(** What every sequence of calls keeps true of a game: the [lives] setting
    is in its domain; the keys of the party are distinct; before the
    start there is no turn order and the index is 0; after it the turn
    order lists distinct members of the party. *)
Record consistent (s : BombParty.t) : Prop := {
  lives_setting_valid : 1 <= Settings.lives (bomb_settings s) <= 5;
  party_keys_nodup : NoDup (party_keys (party s));
  lobby_no_order : started s = false -> turn_order s = [] /\ current_player_index s = 0%nat;
  order_nodup : NoDup (turn_order s);
  order_in_party : forall u, u ∈ turn_order s -> u ∈ party_keys (party s)
}.

(** The used words are distinct, and each is the lowercase of a text. *)
Definition words_distinct (py_lower : string -> string) (s : BombParty.t) : Prop :=
  NoDup (used_words s) /\ Forall (fun w => exists text, w = py_lower text) (used_words s).

(** No player has a negative number of lives. *)
Definition lives_nonneg (s : BombParty.t) : Prop :=
  Forall (fun kv => 0 <= BombPartyPlayer.lives kv.2) (party s).

(** Every setting is in its domain. *)
Definition settings_valid (s : BombParty.t) : Prop :=
  Settings.valid Settings.Difficulty (Settings.difficulty (bomb_settings s)) = true
  /\ Settings.valid Settings.Timer (Settings.timer (bomb_settings s)) = true
  /\ Settings.valid Settings.MinimumTime (Settings.minimum_time (bomb_settings s)) = true
  /\ Settings.valid Settings.Lives (Settings.lives (bomb_settings s)) = true.

End Host.

(** ** More string builtins *)

Module PyStr.

(** [s.index(sub)]: the first position at which [sub] occurs in [s];
    [None] is the [ValueError]. *)
Fixpoint index (sub s : string) : option nat :=
  if String.prefix sub s then Some 0%nat
  else match s with
       | EmptyString => None
       | String _ s' => S <$> index sub s'
       end.

(** [s[:i]] *)
Fixpoint take (i : nat) (s : string) : string :=
  match i, s with
  | S i', String c s' => String c (take i' s')
  | _, _ => EmptyString
  end.

(** [s.count(c)] for a string [c] of one character. *)
Fixpoint count (c : ascii) (s : string) : nat :=
  match s with
  | EmptyString => 0%nat
  | String d s' => ((if Ascii.eqb d c then 1 else 0) + count c s')%nat
  end.

(** [s.replace(c, e)] for a string [c] of one character and the empty
    string [e]. *)
Fixpoint remove (c : ascii) (s : string) : string :=
  match s with
  | EmptyString => EmptyString
  | String d s' => if Ascii.eqb d c then remove c s' else String d (remove c s')
  end.

End PyStr.

(** ** [class ScrambleHintType] and [class Scramble] *)

Module Scramble.

Inductive ScrambleHintType := DEFAULT | EVERY_OTHER.

(** The answer generator handed to the constructor: a function of no
    argument or of the channel.  Its further argument is the random
    source it draws from on the call. *)
Inductive generator :=
| Plain (g : Random.source -> string)
| OfChannel (g : string -> Random.source -> string).

Record t := mk {
  name : string;
  difficulty_multiplier : Q;
  hint_type : ScrambleHintType;
  case_sensitive : bool;
  answer : option string;
  hint : string;
  generate_answer : generator
}.

Definition set_answer (v : option string) (sc : t) : t :=
  mk (name sc) (difficulty_multiplier sc) (hint_type sc) (case_sensitive sc)
     v (hint sc) (generate_answer sc).
Definition set_hint (v : string) (sc : t) : t :=
  mk (name sc) (difficulty_multiplier sc) (hint_type sc) (case_sensitive sc)
     (answer sc) v (generate_answer sc).

Inductive exn :=
| ValueError | IndexError | TypeError | KeyError | AttributeError
| ZeroDivisionError | Exception.

Inductive res (A : Type) := Val (a : A) | Exc (e : exn).
Arguments Val {A} a.
Arguments Exc {A} e.

(** A value and the scramble after the call, an exception and the
    scramble when it was raised, or no answer within the given number of
    loop iterations. *)
Inductive outcome (A : Type) :=
| Ok (a : A) (sc : t)
| Raise (e : exn) (sc : t)
| OutOfFuel.
Arguments Ok {A} a sc.
Arguments Raise {A} e sc.
Arguments OutOfFuel {A}.

(** [__init__]; the default arguments are those of the source. *)
Definition init (name : string) (answer_generator : generator) (difficulty_multiplier : Q)
    (hint_type : ScrambleHintType) (case_sensitive : bool) : t :=
  mk name difficulty_multiplier hint_type case_sensitive None "" answer_generator.

(** The call of [self.generate_answer], with the channel as argument
    when the generator takes one. *)
Definition generate (sc : t) (channel : string) (rand : Random.source) : string :=
  match generate_answer sc with
  | Plain g => g rand
  | OfChannel g => g channel rand
  end.

(** [@property hints_left] *)
Definition hints_left (sc : t) : bool := Py.contains "?" (hint sc).

(** [@property in_progress] *)
Definition in_progress (sc : t) : bool :=
  match answer sc with Some _ => true | None => false end.

Section NewAnswer.

(** [banned_words], a class attribute: a list of one word in the source.
    Nothing below depends on which words it holds. *)
Variable banned_words : list string.

(** [self.answer in self.banned_words] *)
Definition banned (sc : t) : bool :=
  match answer sc with
  | Some a => bool_decide (a ∈ banned_words)
  | None => false
  end.

(** The [while] loop of [new_answer]; [rands c] is the random source at
    the call of the generator that makes [count] equal to [c]. *)
Fixpoint new_answer_loop (fuel : nat) (channel : string) (rands : nat -> Random.source)
    (count : nat) (sc : t) : outcome unit :=
  match fuel with
  | O => OutOfFuel
  | S fuel' =>
      if banned sc then
        let sc := set_answer (Some (generate sc channel (rands (count + 1)%nat))) sc in
        let count := (count + 1)%nat in
        if (100 <? count)%nat then Raise Exception sc
        else new_answer_loop fuel' channel rands count sc
      else Ok tt sc
  end.

Definition new_answer (fuel : nat) (channel : string) (rands : nat -> Random.source)
    (sc : t) : outcome unit :=
  let sc := set_answer (Some (generate sc channel (rands 0%nat))) sc in
  match new_answer_loop fuel channel rands 0 sc with
  | Ok _ sc =>
      match answer sc with
      | Some a => Ok tt (set_hint (Py.repeat_str "?" (Z.of_nat (String.length a))) sc)
      | None => Raise TypeError sc
      end
  | o => o
  end.

End NewAnswer.

(** The assignment shared by the two hint functions:
    [self.hint = self.hint[:i] + self.answer[i] + (len(self.answer) - i - 1) * "?"]. *)
Definition reveal (i : nat) (sc : t) : res t :=
  match answer sc with
  | None => Exc TypeError
  | Some a =>
      match String.get i a with
      | None => Exc IndexError
      | Some c =>
          Val (set_hint (PyStr.take i (hint sc) +:+ String c EmptyString
                         +:+ Py.repeat_str "?" (Z.of_nat (String.length a) - Z.of_nat i - 1))
                        sc)
      end
  end.

Definition default_hint (sc : t) : res t :=
  match PyStr.index "?" (hint sc) with
  | None => Exc ValueError
  | Some i => reveal i sc
  end.

Definition every_other_hint (sc : t) : res t :=
  let attempt :=
    match PyStr.index "??" (hint sc) with
    | None => Exc ValueError
    | Some i => reveal (i + 1) sc
    end in
  match attempt with
  | Exc ValueError => default_hint sc
  | r => r
  end.

(** [update_hint]: the hint function named by the type, then the hint. *)
Definition update_hint (sc : t) : res (string * t) :=
  let r := match hint_type sc with
           | DEFAULT => default_hint sc
           | EVERY_OTHER => every_other_hint sc
           end in
  match r with
  | Val sc => Val (hint sc, sc)
  | Exc e => Exc e
  end.

(** The hint fits the answer [a]: it is as long as [a] and shows, at
    each position, the character of [a] or a question mark. *)
Definition hint_fits (sc : t) (a : string) : Prop :=
  answer sc = Some a
  /\ String.length (hint sc) = String.length a
  /\ forall i c, String.get i (hint sc) = Some c ->
       c = "?"%char \/ String.get i a = Some c.

(** [n] calls of [update_hint], one after the other. *)
Fixpoint update_hints (n : nat) (sc : t) : res t :=
  match n with
  | O => Val sc
  | S n' =>
      match update_hint sc with
      | Val (_, sc') => update_hints n' sc'
      | Exc e => Exc e
      end
  end.

End Scramble.

(** ** [class ScrambleManager] *)

Module ScrambleManager.

Import Scramble.

(** [self.scrambles]: a dict from identifiers to scrambles. *)
Definition t := list (string * Scramble.t).

(** [self.scrambles[identifier]]; [None] is the [KeyError]. *)
Fixpoint lookup (identifier : string) (m : t) : option Scramble.t :=
  match m with
  | [] => None
  | (k, sc) :: m' => if String.eqb k identifier then Some sc else lookup identifier m'
  end.

(** The scramble stored under an identifier, after a call changed it. *)
Fixpoint store (identifier : string) (sc : Scramble.t) (m : t) : t :=
  match m with
  | [] => []
  | (k, sc') :: m' =>
      if String.eqb k identifier then (k, sc) :: m' else (k, sc') :: store identifier sc m'
  end.

(** What a method of the manager gives: a value and the manager after
    the call, an exception and the manager when it was raised, or no
    answer within the given number of loop iterations. *)
Inductive outcome (A : Type) :=
| Ok (a : A) (m : t)
| Raise (e : exn) (m : t)
| OutOfFuel.
Arguments Ok {A} a m.
Arguments Raise {A} e m.
Arguments OutOfFuel {A}.

Definition in_progress (identifier : string) (m : t) : res bool :=
  match lookup identifier m with
  | None => Exc KeyError
  | Some sc => Val (Scramble.in_progress sc)
  end.

Definition hints_left (identifier : string) (m : t) : res bool :=
  match lookup identifier m with
  | None => Exc KeyError
  | Some sc => Val (Scramble.hints_left sc)
  end.

Definition get_answer (identifier : string) (m : t) : res (option string) :=
  match lookup identifier m with
  | None => Exc KeyError
  | Some sc => Val (answer sc)
  end.

Definition get_scramble (banned_words : list string) (fuel : nat)
    (identifier channel : string) (rands : nat -> Random.source) (rand : Random.source)
    (m : t) : outcome string :=
  match lookup identifier m with
  | None => Raise KeyError m
  | Some sc =>
      match new_answer banned_words fuel channel rands sc with
      | Scramble.Ok _ sc' =>
          let m := store identifier sc' m in
          match answer sc' with
          | None => Raise TypeError m
          | Some a =>
              let scrambled_word := list_ascii_of_string a in
              let scrambled_word := Random.shuffle rand scrambled_word in
              Ok (string_of_list_ascii scrambled_word) m
          end
      | Scramble.Raise e sc' => Raise e (store identifier sc' m)
      | Scramble.OutOfFuel => OutOfFuel
      end
  end.

Definition get_hint (identifier : string) (m : t) : outcome string :=
  match lookup identifier m with
  | None => Raise KeyError m
  | Some sc =>
      match update_hint sc with
      | Val (h, sc') => Ok h (store identifier sc' m)
      | Exc e => Raise e m
      end
  end.

(** [random.randint(5, 10)] *)
Definition randint_5_10 (rand : Random.source) : Z :=
  5 + Z.of_nat (Random.randbelow rand 6).

(** [check_answer]; the inner [None] is the answer to a wrong guess.
    [py_lower] is [str.lower].  [py_reward p n m] is the value of
    [round(p / n * m)] in the arithmetic of Python, where [p] is the
    product of the three integers. *)
Definition check_answer (py_lower : string -> string) (py_reward : Z -> Z -> Q -> Z)
    (identifier guess : string) (rand : Random.source) (m : t) : res (option Z) :=
  match lookup identifier m with
  | None => Exc KeyError
  | Some scramble =>
      match answer scramble with
      | None => Exc AttributeError
      | Some a =>
          if (String.eqb (py_lower guess) (py_lower a) && negb (case_sensitive scramble))
             || String.eqb guess a
          then
            if (String.length a =? 0)%nat then Exc ZeroDivisionError
            else
              Val (Some (py_reward
                           (randint_5_10 rand
                            * Z.of_nat (String.length (PyStr.remove " " a))
                            * Z.of_nat (PyStr.count "?" (hint scramble)))
                           (Z.of_nat (String.length a))
                           (difficulty_multiplier scramble)))
          else Val None
      end
  end.

End ScrambleManager.

(** ** Example games *)

Module Examples.

Import BombParty Host.

(** A random source whose every draw is the largest value allowed: the
    shuffle then swaps each position with itself. *)
Definition largest : Random.source := fun n => (n - 1)%nat.

(** Two players join and the game starts. *)
Definition two_join : list call :=
  [AddPlayer "a"; AddPlayer "b"; OnStart largest 0%Q].

(** The current player leaves a started game and the bomb explodes. *)
Definition leaver_explodes : list call :=
  two_join ++ [RemovePlayer "a"; OnExplode].

(** The same with one player only. *)
Definition lone_leaver_explodes : list call :=
  [AddPlayer "a"; OnStart largest 0%Q; RemovePlayer "a"; OnExplode].

(** Three players; the second leaves on their turn, the bomb explodes,
    and the turn goes round to the first player. *)
Definition round_with_leaver : list call :=
  [AddPlayer "a"; AddPlayer "b"; AddPlayer "c"; OnStart largest 0%Q; NextPlayer 1%Q;
   RemovePlayer "b"; OnExplode; NextPlayer 2%Q; NextPlayer 3%Q].

(** The state after [two_join]. *)
Definition two_started : BombParty.t :=
  on_start largest 0%Q (add_player "b" (add_player "a" (init []))).

(** Words in several spellings, each checked before it is recorded. *)
Definition some_words : list call :=
  [OnWordUsed "Cat" 1%Q; OnWordUsed "dog" 2%Q].

(** The reward [round(p / n * m)] where no rounding takes place: [n]
    divides [p] and [m] is a whole number.  It stands for the parameter
    [py_reward] in an example with such numbers. *)
Definition reward_whole (p n : Z) (m : Q) : Z := p / n * Qfloor m.

End Examples.

Import BombParty.

(** ** Countdown decay *)

Section Decay.

Variables (py_lower : string -> string) (s : BombParty.t) (message : string) (now : Q).

(** The quantities of the decay: countdown left, grace period, time
    elapsed since the countdown was started. *)
Let r : Q := timer s.
Let g : Q := inject_Z (Settings.minimum_time (bomb_settings s)).
Let e : Q := (now - bomb_start_time s)%Q.





End Decay.




(** ** Strings *)

(** ASCII folding changes nothing the second time, keeps the length, and
    gives the empty string for the empty string only, as [str.lower]
    does. *)
Lemma ascii_fold_char_idemp (c : ascii) :
  Py.ascii_fold_char (Py.ascii_fold_char c) = Py.ascii_fold_char c.
Proof. destruct c as [[] [] [] [] [] [] [] []]; reflexivity. Qed.

Lemma ascii_fold_idemp (w : string) : Py.ascii_fold (Py.ascii_fold w) = Py.ascii_fold w.
Proof.
  induction w as [|c w IH]; cbn; [reflexivity|].
  rewrite ascii_fold_char_idemp, IH. reflexivity.
Qed.

Lemma ascii_fold_length (w : string) : String.length (Py.ascii_fold w) = String.length w.
Proof. induction w as [|c w IH]; cbn; [reflexivity | now rewrite IH]. Qed.

Lemma ascii_fold_empty (w : string) : Py.ascii_fold w = Py.ascii_fold EmptyString -> w = EmptyString.
Proof. destruct w; [reflexivity | discriminate]. Qed.

Lemma append_cons (c : ascii) (a b : string) : String c a +:+ b = String c (a +:+ b).
Proof. reflexivity. Qed.

Lemma append_nil_r (a : string) : a +:+ "" = a.
Proof. induction a as [|c a IH]; [reflexivity | now rewrite append_cons, IH]. Qed.

Lemma prefix_app (f m : string) :
  String.prefix f m = true <-> exists post, m = f +:+ post.
Proof.
  revert m. induction f as [|c f IH]; intros m.
  - split; [intros _; exists m; reflexivity | now destruct m].
  - destruct m as [|d m]; cbn.
    + split; [discriminate | intros [post H]; discriminate].
    + destruct (Ascii.ascii_dec c d) as [->|Hne].
      * rewrite IH. split; intros [post H]; exists post; [now rewrite H | now inversion H].
      * split; [discriminate | intros [post H]; inversion H; congruence].
Qed.

(** [Py.contains] decides occurrence as a contiguous block. *)
Lemma contains_spec (f m : string) :
  Py.contains f m = true <-> exists pre post, m = pre +:+ f +:+ post.
Proof.
  induction m as [|d m IH]; cbn [Py.contains].
  - rewrite orb_false_r, prefix_app. split.
    + intros [post H]. exists EmptyString, post. exact H.
    + intros [pre [post H]]. destruct pre; [now exists post | discriminate].
  - rewrite orb_true_iff, prefix_app, IH. split.
    + intros [[post H] | [pre [post H]]].
      * exists EmptyString, post. exact H.
      * exists (String d pre), post. cbn. now rewrite H.
    + intros [pre [post H]]. destruct pre as [|c pre].
      * left. now exists post.
      * right. exists pre, post. now inversion H.
Qed.

Lemma contains_refl (f : string) : Py.contains f f = true.
Proof.
  apply contains_spec. exists EmptyString, EmptyString.
  change (f = f +:+ ""). now rewrite append_nil_r.
Qed.

Lemma str_length_app (a b : string) :
  String.length (a +:+ b) = (String.length a + String.length b)%nat.
Proof. induction a as [|c a IH]; [reflexivity|]. rewrite append_cons. cbn. now rewrite IH. Qed.

(** A string in which [f] occurs and which is as long as [f] is [f]. *)
Lemma contains_same_length (f m : string) :
  Py.contains f m = true -> String.length m = String.length f -> m = f.
Proof.
  intros Hc Hlen. apply contains_spec in Hc as [pre [post ->]].
  rewrite !str_length_app in Hlen.
  destruct pre as [|c pre]; [|cbn in Hlen; lia].
  destruct post as [|c post]; [|cbn in Hlen; lia].
  change (f +:+ "" = f). apply append_nil_r.
Qed.

(** ** Word validation *)

(** C4, as the source has it.  [check_message] leaves the state as it
    is.  On the lowercased text [m] it answers: already used, if [m] is
    among the used words; else missing fragment, if the current letters do
    not occur in [m]; else trivial answer, if [m] is as long as the
    letters, that is, if [m] is the letters themselves; else nothing.
    The length that is tested is the one of the lowercased text.  For a
    text that lowercasing leaves as long as it was, this is the length of
    the text, and such a text equal to the letters is always refused; it
    is refused with the trivial-answer message when it is its own
    lowercase and was never used as a word.  All this holds whatever
    function [str.lower] is. *)
Theorem check_message_spec (py_lower : string -> string) (s : BombParty.t) (text : string) :
  let m := py_lower text in
  let letters := current_letters s in
  let occurs := exists pre post, m = pre +:+ letters +:+ post in
  let answer := (check_message py_lower text s).1 in
  (check_message py_lower text s).2 = s
  /\ (m ∈ used_words s -> answer = Some msg_used)
  /\ (m ∉ used_words s -> ~ occurs -> answer = Some (msg_missing letters))
  /\ (m ∉ used_words s -> occurs ->
      String.length m = String.length letters -> answer = Some msg_trivial)
  /\ (m ∉ used_words s -> occurs ->
      String.length m <> String.length letters -> answer = None)
  /\ (m ∉ used_words s -> (answer = Some msg_trivial <-> m = letters))
  /\ (String.length m = String.length text ->
      (m ∉ used_words s -> occurs ->
       String.length text = String.length letters -> answer = Some msg_trivial)
      /\ (m ∉ used_words s -> occurs ->
          String.length text <> String.length letters -> answer = None)
      /\ (text = letters -> exists failure, answer = Some failure))
  /\ (text = letters -> m = text -> text ∉ used_words s -> answer = Some msg_trivial).
Proof.
  intros m letters occurs answer. unfold answer, check_message. fold m letters.
  pose proof (contains_spec letters m) as Hc. fold occurs in Hc.
  assert (Htrivial : m ∉ used_words s -> occurs ->
            String.length m = String.length letters ->
            (if bool_decide (m ∈ used_words s) then (Some msg_used, s)
             else if negb (Py.contains letters m) then (Some (msg_missing letters), s)
             else if (String.length m =? String.length letters)%nat
                  then (Some msg_trivial, s) else (None, s)).1 = Some msg_trivial).
  { intros Hnin Hocc Hlen. rewrite bool_decide_eq_false_2 by exact Hnin.
    apply Hc in Hocc. rewrite Hocc. cbn. rewrite Hlen, Nat.eqb_refl. reflexivity. }
  assert (Hnone : m ∉ used_words s -> occurs ->
            String.length m <> String.length letters ->
            (if bool_decide (m ∈ used_words s) then (Some msg_used, s)
             else if negb (Py.contains letters m) then (Some (msg_missing letters), s)
             else if (String.length m =? String.length letters)%nat
                  then (Some msg_trivial, s) else (None, s)).1 = None).
  { intros Hnin Hocc Hlen. rewrite bool_decide_eq_false_2 by exact Hnin.
    apply Hc in Hocc. rewrite Hocc. cbn.
    apply Nat.eqb_neq in Hlen. rewrite Hlen. reflexivity. }
  split; [repeat case_match; reflexivity|].
  split; [intros Hin; rewrite bool_decide_eq_true_2 by exact Hin; reflexivity|].
  split.
  { intros Hnin Hno. rewrite bool_decide_eq_false_2 by exact Hnin.
    destruct (Py.contains letters m); [|reflexivity].
    exfalso. apply Hno, Hc. reflexivity. }
  split; [exact Htrivial|].
  split; [exact Hnone|].
  split.
  { intros Hnin. split.
    - rewrite bool_decide_eq_false_2 by exact Hnin.
      destruct (Py.contains letters m) eqn:Hocc; cbn.
      + destruct (String.length m =? String.length letters)%nat eqn:Hlen; cbn.
        * intros _. apply Nat.eqb_eq in Hlen. now apply contains_same_length.
        * discriminate.
      + unfold msg_missing, msg_trivial. intros H. exfalso. cbv in H. discriminate H.
    - intros Heq. apply Htrivial; [exact Hnin | | now rewrite Heq].
      apply Hc. rewrite Heq. apply contains_refl. }
  split.
  { intros Hl. rewrite <- Hl. split; [exact Htrivial|]. split; [exact Hnone|].
    intros Heq. destruct (bool_decide (m ∈ used_words s)); [eauto|].
    destruct (Py.contains letters m); cbn; [|eauto].
    rewrite Hl, Heq, Nat.eqb_refl. eauto. }
  intros Heq Hlow Hnin. rewrite <- Hlow in Hnin. apply Htrivial; [exact Hnin| |].
  - apply Hc. rewrite Hlow, Heq. apply contains_refl.
  - now rewrite Hlow, Heq.
Qed.

(** ** The party as a dict *)

Lemma party_alter_keys (f : player -> player) (u : string) (p : list (string * player)) :
  party_keys (party_alter f u p) = party_keys p.
Proof.
  unfold party_keys, party_alter. induction p as [|[k v] p IH]; cbn; [reflexivity|].
  rewrite <- IH. destruct (String.eqb k u); reflexivity.
Qed.

Lemma party_alter_length (f : player -> player) (u : string) (p : list (string * player)) :
  length (party_alter f u p) = length p.
Proof. apply length_map. Qed.

(** Altering under every key of a list, with a function that settles
    after one application, is one pass over the entries. *)
Lemma fold_party_alter (f : player -> player) (ks : list string) :
  (forall v, f (f v) = f v) ->
  forall p,
    List.fold_left (fun p u => party_alter f u p) ks p
    = List.map (fun kv => if bool_decide (kv.1 ∈ ks) then (kv.1, f kv.2) else kv) p.
Proof.
  intros Hf. induction ks as [|u ks IH]; intros p; cbn [List.fold_left].
  - induction p as [|kv p IHp]; cbn; [reflexivity|]. now rewrite <- IHp.
  - rewrite IH. unfold party_alter. rewrite List.map_map.
    apply List.map_ext. intros [k v]. cbn.
    destruct (String.eqb k u) eqn:Hku; cbn.
    + apply String.eqb_eq in Hku. subst k.
      rewrite (bool_decide_eq_true_2 (u ∈ u :: ks)) by apply list_elem_of_here.
      rewrite Hf. now destruct (bool_decide (u ∈ ks)).
    + apply String.eqb_neq in Hku.
      destruct (bool_decide (k ∈ ks)) eqn:Hk.
      * apply bool_decide_eq_true_1 in Hk.
        rewrite bool_decide_eq_true_2; [reflexivity | now apply list_elem_of_further].
      * apply bool_decide_eq_false_1 in Hk.
        rewrite bool_decide_eq_false_2; [reflexivity|].
        intros Hin. apply elem_of_cons in Hin. destruct Hin; congruence.
Qed.

Lemma on_lives_set_party (s : BombParty.t) :
  party (on_lives_set s)
  = List.map (fun kv => (kv.1, BombPartyPlayer.with_lives (Settings.lives (bomb_settings s)) kv.2))
             (party s).
Proof.
  unfold on_lives_set. cbn [party set_party].
  rewrite fold_party_alter by reflexivity.
  apply List.map_ext_in. intros [k v] Hin. cbn.
  rewrite bool_decide_eq_true_2; [reflexivity|].
  unfold party_keys. apply list_elem_of_fmap. exists (k, v). split; [reflexivity|].
  now apply list_elem_of_In.
Qed.

(** ** Settings *)

Lemma key_of_string_name (k : Settings.key) : Settings.key_of_string (Settings.key_name k) = Some k.
Proof. destruct k; reflexivity. Qed.

Lemma key_of_string_Some (name : string) (k : Settings.key) :
  Settings.key_of_string name = Some k <-> name = Settings.key_name k.
Proof.
  split; [|intros ->; apply key_of_string_name].
  unfold Settings.key_of_string, Settings.keys. cbn [List.find].
  destruct (String.eqb_spec name (Settings.key_name Settings.Difficulty));
    [intros [= <-]; assumption|].
  destruct (String.eqb_spec name (Settings.key_name Settings.Timer));
    [intros [= <-]; assumption|].
  destruct (String.eqb_spec name (Settings.key_name Settings.MinimumTime));
    [intros [= <-]; assumption|].
  destruct (String.eqb_spec name (Settings.key_name Settings.Lives));
    [intros [= <-]; assumption|].
  discriminate.
Qed.

Lemma key_of_string_None (name : string) :
  Settings.key_of_string name = None <-> name ∉ (Settings.key_name <$> Settings.keys).
Proof.
  split.
  - intros Hnone Hin. apply list_elem_of_fmap in Hin as [k [-> _]].
    rewrite key_of_string_name in Hnone. discriminate.
  - intros Hnin. destruct (Settings.key_of_string name) as [k|] eqn:Hk; [|reflexivity].
    exfalso. apply Hnin. apply key_of_string_Some in Hk. subst name.
    apply list_elem_of_fmap. exists k. split; [reflexivity|].
    destruct k; apply list_elem_of_In; cbn; auto.
Qed.

(** A confirmation is never one of the failure messages. *)
Lemma msg_changed_not_failure (k : Settings.key) (v : Settings.value k) :
  ~ setting_failure (msg_changed k v).
Proof.
  unfold setting_failure, msg_changed. intros [H | [H | H]]; destruct k; discriminate H.
Qed.

Section SettingsStore.

Variable py_int : string -> option Z.

(** What [set_setting] answers, case by case, and the state it leaves
    when it refuses. *)
Lemma set_setting_cases (setting value : string) (s : BombParty.t) :
  let r := set_setting py_int setting value s in
  (Settings.key_of_string setting = None /\ r = (msg_invalid_setting, s))
  \/ (exists k, setting = Settings.key_name k /\ coerce py_int k value = None
                /\ r = (msg_value_error, s))
  \/ (exists k v, setting = Settings.key_name k /\ coerce py_int k value = Some v
                  /\ Settings.valid k v = false /\ r = (msg_invalid_value, s))
  \/ (exists k v, setting = Settings.key_name k /\ coerce py_int k value = Some v
                  /\ Settings.valid k v = true /\ r.1 = msg_changed k v
                  /\ bomb_settings r.2 = Settings.put k v (bomb_settings s)).
Proof.
  cbv zeta. unfold set_setting.
  destruct (Settings.key_of_string setting) as [k|] eqn:Hk; [|left; split; reflexivity].
  apply key_of_string_Some in Hk. right.
  destruct (coerce py_int k value) as [v|] eqn:Hv; [|left; exists k; auto].
  right. destruct (Settings.valid k v) eqn:Hval; cbn [negb].
  - right. exists k, v. repeat (split; [assumption || reflexivity|]).
    destruct k; reflexivity.
  - left. exists k, v. auto.
Qed.

(** C6.  [set_setting] answers every pair of strings with a message and
    raises nothing: the invalid-setting message when the name is none of
    the four settings; the value-error message when the value cannot be
    converted to the type of the setting; the invalid-value message when
    the converted value is outside the domain of the setting; and the
    confirmation otherwise.  The three refusals leave the state alone. *)
Theorem set_setting_answers (setting value : string) (s : BombParty.t) :
  let r := set_setting py_int setting value s in
  (setting ∉ (Settings.key_name <$> Settings.keys) -> r = (msg_invalid_setting, s))
  /\ (forall k, setting = Settings.key_name k -> coerce py_int k value = None ->
      r = (msg_value_error, s))
  /\ (forall k v, setting = Settings.key_name k -> coerce py_int k value = Some v ->
      Settings.valid k v = false -> r = (msg_invalid_value, s))
  /\ (forall k v, setting = Settings.key_name k -> coerce py_int k value = Some v ->
      Settings.valid k v = true ->
      r.1 = msg_changed k v /\ ~ setting_failure r.1)
  /\ (setting_failure r.1
      \/ exists k v, setting = Settings.key_name k /\ coerce py_int k value = Some v
                     /\ Settings.valid k v = true /\ r.1 = msg_changed k v).
Proof.
  cbv zeta. split; [|split; [|split; [|split]]].
  - intros Hnin. apply key_of_string_None in Hnin.
    unfold set_setting. now rewrite Hnin.
  - intros k -> Hc. unfold set_setting. now rewrite key_of_string_name, Hc.
  - intros k v -> Hc Hv. unfold set_setting. now rewrite key_of_string_name, Hc, Hv.
  - intros k v -> Hc Hv. unfold set_setting. rewrite key_of_string_name, Hc, Hv.
    cbn [negb fst]. split; [reflexivity | apply msg_changed_not_failure].
  - destruct (set_setting_cases setting value s) as [[_ H] | [(k & _ & _ & H) | [(k & v & _ & _ & _ & H) | H]]].
    + left. rewrite H. left. reflexivity.
    + left. rewrite H. right. left. reflexivity.
    + left. rewrite H. right. right. reflexivity.
    + right. destruct H as (k & v & H1 & H2 & H3 & H4 & _). eauto 6.
Qed.

(** C10.  When [set_setting] answers with one of its failure messages,
    the state after the call is the state before it: the settings and
    the lives of every player are as they were. *)
Theorem set_setting_failure_keeps_state (setting value : string) (s : BombParty.t) :
  setting_failure (set_setting py_int setting value s).1 ->
  (set_setting py_int setting value s).2 = s
  /\ bomb_settings (set_setting py_int setting value s).2 = bomb_settings s
  /\ party (set_setting py_int setting value s).2 = party s.
Proof.
  intros Hfail.
  assert (H : (set_setting py_int setting value s).2 = s).
  { destruct (set_setting_cases setting value s)
      as [[_ H] | [(k & _ & _ & H) | [(k & v & _ & _ & _ & H) | H]]];
      try (rewrite H; reflexivity).
    destruct H as (k & v & _ & _ & _ & H & _). rewrite H in Hfail.
    now apply msg_changed_not_failure in Hfail. }
  rewrite H. auto.
Qed.

(** C5.  In any state, whatever the phase of the game, setting [lives]
    to a raw value that reads as an integer [v] between 1 and 5 is
    confirmed, stores [v], and gives every player of the party exactly
    [v] lives; nothing else changes. *)
Theorem set_lives_cascade (s : BombParty.t) (raw : string) (v : Z) :
  py_int raw = Some v ->
  1 <= v <= 5 ->
  let r := set_setting py_int "lives" raw s in
  r.1 = "The lives setting has been changed to " +:+ Py.str_of_int v
  /\ Settings.lives (bomb_settings r.2) = v
  /\ Forall (fun kv => BombPartyPlayer.lives kv.2 = v) (party r.2)
  /\ party r.2 = List.map (fun kv => (kv.1, BombPartyPlayer.with_lives v kv.2)) (party s)
  /\ party_keys (party r.2) = party_keys (party s)
  /\ (started r.2, in_progress r.2, turn_order r.2, current_player_index r.2)
     = (started s, in_progress s, turn_order s, current_player_index s)
  /\ (used_words r.2, current_letters r.2, timer r.2, bomb_start_time r.2)
     = (used_words s, current_letters s, timer s, bomb_start_time s).
Proof.
  intros Hint Hv. cbv zeta. unfold set_setting.
  change (Settings.key_of_string "lives") with (Some Settings.Lives).
  cbn [coerce]. rewrite Hint.
  assert (Hval : Settings.valid Settings.Lives v = true).
  { cbn. unfold Settings.in_range. apply andb_true_iff. split; [apply Z.leb_le|apply Z.ltb_lt]; lia. }
  rewrite Hval. cbn [negb bomb_setting_functions fst snd].
  assert (Hp : party (on_lives_set (set_bomb_settings
                 (Settings.put Settings.Lives v (bomb_settings s)) s))
               = List.map (fun kv => (kv.1, BombPartyPlayer.with_lives v kv.2)) (party s)).
  { rewrite on_lives_set_party. reflexivity. }
  split; [reflexivity|]. split; [reflexivity|].
  split; [rewrite Hp; apply Forall_forall; intros kv Hin;
          apply list_elem_of_In, List.in_map_iff in Hin as [kv' [<- _]]; reflexivity|].
  split; [exact Hp|].
  split; [rewrite Hp; unfold party_keys; rewrite <- list_fmap_compose;
          apply list_fmap_ext; intros ? [? ?] ?; reflexivity|].
  split; reflexivity.
Qed.

End SettingsStore.

(** ** The winner *)

Section FilterPositions.

Context {A : Type} (f : A -> bool).

Lemma filter_none (l : list A) :
  (forall x, x ∈ l -> f x = false) -> List.filter f l = [].
Proof.
  induction l as [|x l IH]; intros H; cbn; [reflexivity|].
  rewrite (H x) by apply list_elem_of_here.
  apply IH. intros y Hy. apply H. now apply list_elem_of_further.
Qed.

Lemma filter_only (l : list A) (i : nat) (p : A) :
  l !! i = Some p -> f p = true ->
  (forall j q, l !! j = Some q -> f q = true -> j = i) ->
  List.filter f l = [p].
Proof.
  revert i. induction l as [|x l IH]; intros i Hi Hp Huniq; [discriminate|].
  destruct i as [|i]; cbn in *.
  - injection Hi as ->. rewrite Hp. f_equal. apply filter_none.
    intros y Hy. apply list_elem_of_lookup in Hy as [j Hj].
    destruct (f y) eqn:Hfy; [|reflexivity].
    specialize (Huniq (S j) y Hj Hfy). discriminate.
  - destruct (f x) eqn:Hfx.
    + specialize (Huniq 0%nat x eq_refl Hfx). discriminate.
    + apply (IH i); [assumption..|].
      intros j q Hj Hq. specialize (Huniq (S j) q Hj Hq). now injection Huniq.
Qed.

Lemma filter_some (l : list A) (j : nat) (q : A) :
  l !! j = Some q -> f q = true -> (1 <= length (List.filter f l))%nat.
Proof.
  intros Hj Hq.
  assert (Hin : List.In q (List.filter f l)).
  { apply List.filter_In. split; [|assumption].
    apply list_elem_of_In, list_elem_of_lookup. eauto. }
  destruct (List.filter f l); [contradiction | cbn; lia].
Qed.

Lemma filter_two (l : list A) (i j : nat) (p q : A) :
  i <> j -> l !! i = Some p -> l !! j = Some q -> f p = true -> f q = true ->
  (2 <= length (List.filter f l))%nat.
Proof.
  revert i j. induction l as [|x l IH]; intros i j Hne Hi Hj Hp Hq; [discriminate|].
  destruct i as [|i], j as [|j]; cbn in *; try congruence.
  - injection Hi as ->. rewrite Hp. cbn.
    pose proof (filter_some l j q Hj Hq). lia.
  - injection Hj as ->. rewrite Hq. cbn.
    pose proof (filter_some l i p Hi Hp). lia.
  - assert (Hne' : i <> j) by congruence.
    pose proof (IH i j Hne' Hi Hj Hp Hq).
    destruct (f x); cbn; lia.
Qed.

End FilterPositions.

Lemma alive_true (p : player) : negb (BombPartyPlayer.lives p =? 0) = true <-> BombPartyPlayer.lives p <> 0.
Proof. rewrite negb_true_iff. apply Z.eqb_neq. Qed.

Lemma get_winner_unique (s : BombParty.t) (i : nat) (p : player) :
  party_values (party s) !! i = Some p ->
  BombPartyPlayer.lives p <> 0 ->
  (forall j q, party_values (party s) !! j = Some q -> BombPartyPlayer.lives q <> 0 -> j = i) ->
  get_winner s = Some p.
Proof.
  intros Hi Hp Huniq. unfold get_winner.
  rewrite (filter_only _ _ i p); [reflexivity | assumption | now apply alive_true |].
  intros j q Hj Hq. apply (Huniq j q Hj). now apply alive_true.
Qed.

Lemma get_winner_nobody (s : BombParty.t) :
  (forall p, p ∈ party_values (party s) -> BombPartyPlayer.lives p = 0) ->
  get_winner s = None.
Proof.
  intros H. unfold get_winner. rewrite filter_none; [reflexivity|].
  intros p Hp. apply negb_false_iff, Z.eqb_eq. now apply H.
Qed.

Lemma get_winner_several (s : BombParty.t) (i j : nat) (p q : player) :
  i <> j ->
  party_values (party s) !! i = Some p -> party_values (party s) !! j = Some q ->
  BombPartyPlayer.lives p <> 0 -> BombPartyPlayer.lives q <> 0 ->
  get_winner s = None.
Proof.
  intros Hne Hi Hj Hp Hq. unfold get_winner.
  pose proof (filter_two (fun p => negb (BombPartyPlayer.lives p =? 0)) _ i j p q Hne Hi Hj
                (proj2 (alive_true p) Hp) (proj2 (alive_true q) Hq)) as H2.
  destruct (Nat.eqb_spec (length (List.filter (fun p => negb (BombPartyPlayer.lives p =? 0))
                                   (party_values (party s)))) 1); [lia | reflexivity].
Qed.

(** C9, as the source has it.  [get_winner] tells the players apart by
    [lives != 0].  It returns the player with nonzero lives when there is
    exactly one in the party, and nothing when there is none or more than
    one.  When no player of the party has negative lives this is the
    same as telling them apart by [lives > 0]. *)
Theorem get_winner_spec (s : BombParty.t) :
  let ps := party_values (party s) in
  (forall i p, ps !! i = Some p -> BombPartyPlayer.lives p <> 0 ->
     (forall j q, ps !! j = Some q -> BombPartyPlayer.lives q <> 0 -> j = i) ->
     get_winner s = Some p)
  /\ ((forall p, p ∈ ps -> BombPartyPlayer.lives p = 0) -> get_winner s = None)
  /\ (forall i j p q, i <> j -> ps !! i = Some p -> ps !! j = Some q ->
        BombPartyPlayer.lives p <> 0 -> BombPartyPlayer.lives q <> 0 -> get_winner s = None)
  /\ (Forall (fun p => 0 <= BombPartyPlayer.lives p) ps ->
      (forall i p, ps !! i = Some p -> 0 < BombPartyPlayer.lives p ->
         (forall j q, ps !! j = Some q -> 0 < BombPartyPlayer.lives q -> j = i) ->
         get_winner s = Some p)
      /\ ((forall p, p ∈ ps -> ~ 0 < BombPartyPlayer.lives p) -> get_winner s = None)
      /\ (forall i j p q, i <> j -> ps !! i = Some p -> ps !! j = Some q ->
            0 < BombPartyPlayer.lives p -> 0 < BombPartyPlayer.lives q -> get_winner s = None)).
Proof.
  cbv zeta.
  split; [apply get_winner_unique|].
  split; [apply get_winner_nobody|].
  split; [apply get_winner_several|].
  intros Hnn. rewrite Forall_forall in Hnn.
  assert (Hpos : forall j q, party_values (party s) !! j = Some q ->
                   BombPartyPlayer.lives q <> 0 -> 0 < BombPartyPlayer.lives q).
  { intros j q Hj Hq. assert (q ∈ party_values (party s)) as Hin
      by (apply list_elem_of_lookup; eauto).
    specialize (Hnn q Hin). lia. }
  split; [|split].
  - intros i p Hi Hp Huniq. apply (get_winner_unique s i p Hi); [lia|].
    intros j q Hj Hq. apply (Huniq j q Hj). now apply (Hpos j).
  - intros Hnone. apply get_winner_nobody. intros p Hin.
    specialize (Hnone p Hin). specialize (Hnn p Hin). lia.
  - intros i j p q Hne Hi Hj Hp Hq. apply (get_winner_several s i j p q); [assumption..|lia|lia].
Qed.

(** ** The shuffle *)

Section Shuffle.

Context {A : Type}.
Implicit Types (x : list A) (a b : A).

Lemma insert_perm x k a b :
  x !! k = Some b -> <[k:=a]> x ≡ₚ a :: delete k x.
Proof.
  revert k. induction x as [|h x IH]; intros k Hk; [discriminate|].
  destruct k as [|k]; cbn in *; [reflexivity|].
  rewrite (IH k Hk). apply Permutation_swap.
Qed.

Lemma swap_perm_lt x i j a b :
  (i < j)%nat -> x !! i = Some a -> x !! j = Some b ->
  <[j:=a]> (<[i:=b]> x) ≡ₚ x.
Proof.
  revert i j. induction x as [|h x IH]; intros i j Hlt Hi Hj; [discriminate|].
  destruct j as [|j]; [lia|]. destruct i as [|i]; cbn in *.
  - injection Hi as ->.
    transitivity (b :: a :: delete j x).
    { apply Permutation_skip. now apply (insert_perm x j a b). }
    transitivity (a :: b :: delete j x); [apply Permutation_swap|].
    apply Permutation_skip. symmetry. now apply delete_Permutation.
  - apply Permutation_skip. apply (IH i j); [lia | assumption..].
Qed.

Lemma swap_perm (i j : nat) x : Random.swap i j x ≡ₚ x.
Proof.
  unfold Random.swap.
  destruct (x !! i) as [a|] eqn:Hi; [|reflexivity].
  destruct (x !! j) as [b|] eqn:Hj; [|reflexivity].
  destruct (Nat.lt_trichotomy i j) as [Hlt | [-> | Hgt]].
  - now apply swap_perm_lt.
  - rewrite list_insert_insert_eq. now rewrite list_insert_id.
  - rewrite list_insert_insert_ne by lia. now apply swap_perm_lt.
Qed.

Lemma shuffle_from_perm (rand : Random.source) (n : nat) x :
  Random.shuffle_from rand n x ≡ₚ x.
Proof.
  revert x. induction n as [|n IH]; intros x; cbn [Random.shuffle_from]; [reflexivity|].
  rewrite IH. apply swap_perm.
Qed.

Lemma shuffle_perm (rand : Random.source) x : Random.shuffle rand x ≡ₚ x.
Proof. apply shuffle_from_perm. Qed.

End Shuffle.

(** What [on_start] writes and what it keeps. *)
Lemma on_start_fields (rand : Random.source) (now : Q) (s : BombParty.t) :
  turn_order (on_start rand now s) = Random.shuffle rand (party_keys (party s))
  /\ current_player_index (on_start rand now s) = current_player_index s
  /\ party (on_start rand now s) = party s
  /\ started (on_start rand now s) = true
  /\ used_words (on_start rand now s) = used_words s
  /\ bomb_settings (on_start rand now s) = bomb_settings s.
Proof. repeat split. Qed.

(** ** Calls, one at a time *)

Import Host.

Lemma party_get_keys (u : string) (p : list (string * player)) :
  party_has u p = true <-> u ∈ party_keys p.
Proof.
  unfold party_has, party_keys. induction p as [|[k v] p IH]; cbn.
  - split; [discriminate | intros H; inversion H].
  - destruct (String.eqb_spec k u) as [->|Hne].
    + split; [intros _; apply list_elem_of_here | reflexivity].
    + rewrite IH. split; [apply list_elem_of_further|].
      intros H. apply elem_of_cons in H as [H|H]; [congruence | exact H].
Qed.

Lemma party_get_Some (u : string) (p : list (string * player)) (v : player) :
  party_get u p = Some v -> (u, v) ∈ p.
Proof.
  induction p as [|[k w] p IH]; cbn; [discriminate|].
  destruct (String.eqb_spec k u) as [->|Hne].
  - intros [= ->]. apply list_elem_of_here.
  - intros H. apply list_elem_of_further. auto.
Qed.

Lemma party_del_keys (u : string) (p : list (string * player)) :
  party_keys (party_del u p) = List.filter (fun k => negb (String.eqb k u)) (party_keys p).
Proof.
  unfold party_keys, party_del. induction p as [|[k v] p IH]; cbn; [reflexivity|].
  destruct (String.eqb k u); cbn; now rewrite IH.
Qed.

Lemma filter_nodup {A} (f : A -> bool) (l : list A) : NoDup l -> NoDup (List.filter f l).
Proof.
  induction 1 as [|x l Hx Hl IH]; cbn; [constructor|].
  destruct (f x); [|exact IH]. constructor; [|exact IH].
  intros Hin. apply Hx. apply list_elem_of_In in Hin. apply List.filter_In in Hin as [Hin _].
  now apply list_elem_of_In.
Qed.

(** The loop of [next_player] writes the index and nothing else. *)
Lemma next_player_loop_frame (fuel : nat) (who : string) (s s' : BombParty.t) :
  final (next_player_loop fuel who s) = Some s' ->
  exists i, s' = set_current_player_index i s.
Proof.
  revert s. induction fuel as [|fuel IH]; intros s; cbn; [discriminate|].
  destruct (current_player s) as [[p|]|e].
  - destruct (_ || _).
    + intros H. apply IH in H as [i ->]. exists i. reflexivity.
    + intros [= <-]. exists (current_player_index s). now destruct s.
  - intros [= <-]. exists (current_player_index s). now destruct s.
  - intros [= <-]. exists (current_player_index s). now destruct s.
Qed.

Lemma next_player_frame (fuel : nat) (now : Q) (s s' : BombParty.t) :
  final (next_player fuel now s) = Some s' ->
  exists i t, s' = set_bomb_start_time t (set_current_player_index i s).
Proof.
  unfold next_player.
  destruct (current_player s) as [[p|]|e].
  - destruct (next_player_loop fuel (BombPartyPlayer.user p) s) as [[] s1|e s1|] eqn:Hloop;
      cbn; [| |discriminate].
    + intros [= <-].
      assert (H : final (next_player_loop fuel (BombPartyPlayer.user p) s) = Some s1)
        by now rewrite Hloop.
      apply next_player_loop_frame in H as [i ->]. exists i, now. reflexivity.
    + intros [= <-].
      assert (H : final (next_player_loop fuel (BombPartyPlayer.user p) s) = Some s1)
        by now rewrite Hloop.
      apply next_player_loop_frame in H as [i ->].
      exists i, (bomb_start_time s). now destruct s.
  - intros [= <-]. exists (current_player_index s), (bomb_start_time s). now destruct s.
  - intros [= <-]. exists (current_player_index s), (bomb_start_time s). now destruct s.
Qed.

(** Without a turn order [next_player] raises and writes nothing. *)
Lemma next_player_no_order (fuel : nat) (now : Q) (s : BombParty.t) :
  turn_order s = [] -> next_player fuel now s = Raise AttributeError s.
Proof.
  intros H. unfold next_player, current_player, current_key. now rewrite H.
Qed.

(** [on_explode] writes the countdown and, when there is a current
    player, the lives stored under the current key. *)
Lemma on_explode_frame (s s' : BombParty.t) :
  final (on_explode s) = Some s' ->
  exists t t' pty, s' = set_party pty (set_bomb_start_time t' (set_timer t s))
    /\ (pty = party s
        \/ exists u p, current_key s = Val (Some u) /\ current_player s = Val (Some p)
             /\ pty = party_alter (BombPartyPlayer.with_lives (BombPartyPlayer.lives p - 1)) u (party s)).
Proof.
  unfold on_explode.
  change (current_key (set_bomb_start_time 0%Q
            (set_timer (inject_Z (Settings.timer (bomb_settings s))) s)))
    with (current_key s).
  change (current_player (set_bomb_start_time 0%Q
            (set_timer (inject_Z (Settings.timer (bomb_settings s))) s)))
    with (current_player s).
  destruct (current_key s) as [[u|]|e] eqn:Hk, (current_player s) as [[p|]|e'] eqn:Hp;
    cbn; intros [= <-];
    exists (inject_Z (Settings.timer (bomb_settings s))), 0%Q;
    try (exists (party s); split; [reflexivity | left; reflexivity]).
  eexists. split; [reflexivity|]. right. exists u, p. auto.
Qed.

Lemma set_letters_frame (rand : Random.source) (s s' : BombParty.t) :
  final (set_letters rand s) = Some s' -> exists f, s' = set_current_letters f s.
Proof.
  unfold set_letters.
  destruct (letters_get _ _) as [pool|]; [destruct (Random.choice rand pool) as [f|]|];
    cbn; intros [= <-]; eauto; exists (current_letters s); now destruct s.
Qed.

(** [set_setting] writes the settings and, for [lives], the lives of the
    players. *)
Lemma set_setting_frame (py_int : string -> option Z) (setting value : string) (s : BombParty.t) :
  (set_setting py_int setting value s).2 = s
  \/ exists k v, Settings.valid k v = true
       /\ ((k <> Settings.Lives
            /\ (set_setting py_int setting value s).2
               = set_bomb_settings (Settings.put k v (bomb_settings s)) s)
           \/ exists n : Z, 1 <= n <= 5
                /\ (set_setting py_int setting value s).2
                   = set_party (List.map (fun kv => (kv.1, BombPartyPlayer.with_lives n kv.2)) (party s))
                       (set_bomb_settings (Settings.put Settings.Lives n (bomb_settings s)) s)).
Proof.
  unfold set_setting.
  destruct (Settings.key_of_string setting) as [k|]; [|left; reflexivity].
  destruct (coerce py_int k value) as [v|]; [|left; reflexivity].
  destruct (Settings.valid k v) eqn:Hv; [|left; reflexivity].
  right. exists k, v. split; [exact Hv|]. cbn [negb snd].
  destruct k; cbn [bomb_setting_functions];
    try (left; split; [discriminate | reflexivity]).
  right. exists v. split.
  - cbn in Hv. unfold Settings.in_range in Hv. apply andb_true_iff in Hv as [H1 H2].
    apply Z.leb_le in H1. apply Z.ltb_lt in H2. lia.
  - unfold on_lives_set at 1. f_equal.
    pose proof (on_lives_set_party (set_bomb_settings (Settings.put Settings.Lives v (bomb_settings s)) s)) as H.
    exact H.
Qed.

Lemma check_message_state (py_lower : string -> string) (message : string) (s : BombParty.t) :
  (check_message py_lower message s).2 = s.
Proof. unfold check_message. repeat case_match; reflexivity. Qed.

(** ** What every sequence of calls preserves *)

Section Invariants.

Variable py_int : string -> option Z.
Variable py_lower : string -> string.

(** A property kept by every allowed call holds after every allowed
    sequence of calls. *)
Lemma run_invariant (P : BombParty.t -> Prop) (guard : BombParty.t -> call -> bool) :
  (forall fuel c s s', P s -> guard s c = true -> exec py_int py_lower fuel c s = Some s' -> P s') ->
  forall fuel cs s s', P s -> run py_int py_lower guard fuel cs s = Some s' -> P s'.
Proof.
  intros Hstep fuel cs. induction cs as [|c cs IH]; intros s s' HP; cbn.
  - now intros [= <-].
  - destruct (guard s c) eqn:Hg; [|discriminate].
    destruct (exec py_int py_lower fuel c s) as [s1|] eqn:He; [|discriminate].
    apply IH. now apply (Hstep fuel c s).
Qed.

Local Ltac keep H :=
  destruct H as [H1 H2 H3 H4 H5]; constructor; cbn -[party_keys]; auto.

Lemma consistent_init (letters : list (string * list string)) : consistent (init letters).
Proof.
  constructor; cbn; auto; try lia; try constructor; intros u Hu; inversion Hu.
Qed.

Lemma consistent_step (fuel : nat) (c : call) (s s' : BombParty.t) :
  consistent s -> exec py_int py_lower fuel c s = Some s' -> consistent s'.
Proof.
  intros Hc. destruct c as [u|u| |rand now|m now| | |now|rand|n v|m]; cbn [exec].
  - (* add_player *)
    intros [= <-]. unfold add_player.
    destruct (party_has u (party s)) eqn:Hhas; cbn [negb]; [exact Hc|].
    assert (Hu : u ∉ party_keys (party s)).
    { intros Hin. apply party_get_keys in Hin. congruence. }
    keep Hc; unfold party_keys in *; rewrite fmap_app; cbn.
    + apply NoDup_app. split; [exact H2|]. split; [|apply NoDup_singleton].
      intros x Hx Hx'. apply list_elem_of_singleton in Hx'. now subst x.
    + intros x Hx. apply elem_of_app. left. auto.
  - (* remove_player *)
    intros [= <-]. unfold remove_player.
    destruct (party_has u (party s)); [|exact Hc].
    destruct (started s) eqn:Hst.
    + keep Hc; rewrite party_alter_keys; auto.
    + keep Hc; destruct (H3 Hst) as [Hto Hidx].
      * rewrite party_del_keys. now apply filter_nodup.
      * rewrite Hto. intros x Hx. inversion Hx.
  - (* on_in_progress *)
    intros [= <-]. keep Hc.
  - (* on_start *)
    intros [= <-].
    pose proof (shuffle_perm rand (party_keys (party s))) as Hp.
    unfold Random.shuffle in Hp.
    keep Hc.
    + discriminate.
    + now rewrite Hp.
    + intros x Hx. now rewrite Hp in Hx.
  - (* on_word_used *)
    intros [= <-]. keep Hc.
  - (* on_explode *)
    intros H. apply on_explode_frame in H as (t & t' & pty & -> & Hp).
    destruct Hp as [-> | (u & p & _ & _ & ->)]; keep Hc; rewrite party_alter_keys; auto.
  - (* on_close *)
    intros [= <-].
    constructor; cbn; auto; try lia; try constructor; intros u Hu; inversion Hu.
  - (* next_player *)
    destruct (started s) eqn:Hst.
    + intros H. apply next_player_frame in H as (i & t & ->). keep Hc.
      rewrite Hst. discriminate.
    + destruct (lobby_no_order s Hc Hst) as [Hto _].
      rewrite (next_player_no_order fuel now s Hto). now intros [= <-].
  - (* set_letters *)
    intros H. apply set_letters_frame in H as [f ->]. keep Hc.
  - (* set_setting *)
    intros [= <-].
    destruct (set_setting_frame py_int n v s)
      as [-> | (k & w & Hv & [[Hk ->] | (z & Hz & ->)])]; [exact Hc| |].
    + keep Hc. destruct k; cbn; auto. congruence.
    + assert (Hkeys : party_keys (List.map (fun kv => (kv.1, BombPartyPlayer.with_lives z kv.2)) (party s))
                      = party_keys (party s)).
      { unfold party_keys. rewrite <- list_fmap_compose.
        apply list_fmap_ext. intros ? [? ?] ?. reflexivity. }
      keep Hc; rewrite Hkeys; auto.
  - (* check_message *)
    intros [= <-]. now rewrite check_message_state.
Qed.

Lemma consistent_run (guard : BombParty.t -> call -> bool) (fuel : nat) (cs : list call)
    (letters : list (string * list string)) (s : BombParty.t) :
  run py_int py_lower guard fuel cs (init letters) = Some s -> consistent s.
Proof.
  apply (run_invariant consistent guard); [|apply consistent_init].
  intros f c s1 s2 H _. now apply consistent_step.
Qed.

End Invariants.

(** ** Starting a game *)

(** What [on_start] does to the order of the turns in any state: the
    turn order becomes a permutation of the keys of the party, as long as
    the party; the party and the index of the current player are as they
    were. *)
Lemma on_start_order (rand : Random.source) (now : Q) (s : BombParty.t) :
  turn_order (on_start rand now s) ≡ₚ party_keys (party s)
  /\ length (turn_order (on_start rand now s)) = length (party s)
  /\ party (on_start rand now s) = party s
  /\ current_player_index (on_start rand now s) = current_player_index s.
Proof.
  destruct (on_start_fields rand now s) as (Hto & Hidx & Hparty & _).
  split; [rewrite Hto; apply shuffle_perm|].
  split.
  { rewrite Hto, (Permutation_length (shuffle_perm rand (party_keys (party s)))).
    unfold party_keys. apply length_fmap. }
  split; [exact Hparty | exact Hidx].
Qed.

(** C2.  A game is started from a state that is not started: a new game,
    or one that calls of any kind have led to and that is not under way
    (it never started, or was closed since).  Whatever the party and the
    random source, after [on_start] the turn order is a permutation of
    the keys of the party at that moment, so it is as long as the party,
    and the index of the current player is 0; the party is as it was,
    the turn order has no player twice, and the game is started. *)
Theorem on_start_turn_order (py_int : string -> option Z) (py_lower : string -> string)
    (letters : list (string * list string)) (fuel : nat) (cs : list call)
    (rand : Random.source) (now : Q) (s : BombParty.t) :
  run py_int py_lower any_call fuel cs (init letters) = Some s ->
  started s = false ->
  turn_order (on_start rand now s) ≡ₚ party_keys (party s)
  /\ length (turn_order (on_start rand now s)) = length (party s)
  /\ current_player_index (on_start rand now s) = 0%nat
  /\ party (on_start rand now s) = party s
  /\ NoDup (turn_order (on_start rand now s))
  /\ started (on_start rand now s) = true.
Proof.
  intros Hrun Hst. apply consistent_run in Hrun.
  destruct (on_start_order rand now s) as (Hperm & Hlen & Hparty & Hidx).
  split; [exact Hperm|]. split; [exact Hlen|].
  split; [rewrite Hidx; now destruct (lobby_no_order s Hrun Hst)|].
  split; [exact Hparty|].
  split; [rewrite Hperm; apply (party_keys_nodup s Hrun) | reflexivity].
Qed.

(** ** Used words *)

Section UsedWords.

Variable py_int : string -> option Z.
Variable py_lower : string -> string.

(** A message that [check_message] accepts is new in lower case. *)
Lemma check_message_accepts (message : string) (s : BombParty.t) :
  (check_message py_lower message s).1 = None -> py_lower message ∉ used_words s.
Proof.
  unfold check_message. intros H Hin.
  rewrite bool_decide_eq_true_2 in H by exact Hin. discriminate.
Qed.

(** A text whose lowercase is among the used words is refused. *)
Lemma check_message_used (message : string) (s : BombParty.t) :
  py_lower message ∈ used_words s ->
  (check_message py_lower message s).1 = Some msg_used.
Proof.
  intros Hin. unfold check_message.
  rewrite bool_decide_eq_true_2 by exact Hin. reflexivity.
Qed.

(** Once a word is recorded, every text with the same lowercase is
    refused. *)
Lemma check_message_refuses (m1 m2 : string) (now : Q) (s : BombParty.t) :
  py_lower m1 = py_lower m2 ->
  (check_message py_lower m2 (on_word_used py_lower m1 now s)).1 = Some msg_used.
Proof.
  intros Heq. apply check_message_used.
  cbn [on_word_used used_words set_used_words set_timer].
  rewrite <- Heq. apply elem_of_app. right. apply list_elem_of_here.
Qed.

Lemma words_distinct_init (letters : list (string * list string)) :
  words_distinct py_lower (init letters).
Proof. split; cbn; constructor. Qed.

Lemma words_distinct_step (fuel : nat) (c : call) (s s' : BombParty.t) :
  words_distinct py_lower s -> checked_words py_lower s c = true ->
  exec py_int py_lower fuel c s = Some s' ->
  words_distinct py_lower s'.
Proof.
  intros [Hnd Hlow] Hg. unfold words_distinct.
  destruct c as [u|u| |rand now|m now| | |now|rand|n v|m]; cbn [exec].
  - intros [= <-]. unfold add_player. now destruct (negb _).
  - intros [= <-]. unfold remove_player. now repeat case_match.
  - now intros [= <-].
  - now intros [= <-].
  - intros [= <-]. cbn [on_word_used used_words set_used_words set_timer].
    cbn [checked_words] in Hg.
    destruct ((check_message py_lower m s).1) eqn:Hchk; [discriminate|].
    apply check_message_accepts in Hchk. split.
    + apply NoDup_app. split; [exact Hnd|]. split; [|apply NoDup_singleton].
      intros x Hx Hx'. apply list_elem_of_singleton in Hx'. now subst x.
    + apply Forall_app. split; [exact Hlow|].
      constructor; [now exists m | constructor].
  - intros H. apply on_explode_frame in H as (t & t' & pty & -> & _). now cbn.
  - intros [= <-]. split; cbn; constructor.
  - intros H. apply next_player_frame in H as (i & t & ->). now cbn.
  - intros H. apply set_letters_frame in H as [f ->]. now cbn.
  - intros [= <-].
    destruct (set_setting_frame py_int n v s)
      as [-> | (k & w & Hv & [[Hk ->] | (z & Hz & ->)])]; now cbn.
  - intros [= <-]. now rewrite check_message_state.
Qed.

(** C7, as the source has it.  The host records a word only after
    [check_message] has accepted it.  Then in every state a sequence of
    calls reaches from a new game, no string is among the used words
    twice, and every used word is the lowercase of a text.  A text whose
    lowercase is among the used words is refused, so the host does not
    record it: of two texts with the same lowercase, recorded one after
    the other, the second is refused.  A text that is accepted has a
    lowercase that is not among the used words, and recording it puts
    that lowercase last.  Equality of the lowercases is the only
    comparison that is made.  Since lowercasing a lowercased text changes
    nothing, two used words with the same lowercase are one and the same
    entry.  All this holds whatever function [str.lower] is, the last
    sentence for every function that changes nothing the second time. *)
Theorem used_words_distinct_up_to_case (letters : list (string * list string))
    (fuel : nat) (cs : list call) (s : BombParty.t) :
  run py_int py_lower (checked_words py_lower) fuel cs (init letters) = Some s ->
  NoDup (used_words s)
  /\ (forall w, w ∈ used_words s -> exists text, w = py_lower text)
  /\ (forall m now,
        py_lower m ∈ used_words s ->
        (check_message py_lower m s).1 = Some msg_used
        /\ checked_words py_lower s (OnWordUsed m now) = false
        /\ run py_int py_lower (checked_words py_lower) fuel (cs ++ [OnWordUsed m now])
             (init letters) = None)
  /\ (forall m1 m2 now now',
        py_lower m1 = py_lower m2 ->
        (check_message py_lower m2 (on_word_used py_lower m1 now s)).1 = Some msg_used
        /\ checked_words py_lower (on_word_used py_lower m1 now s) (OnWordUsed m2 now') = false)
  /\ (forall m now,
        (check_message py_lower m s).1 = None ->
        (py_lower m ∉ used_words s)
        /\ checked_words py_lower s (OnWordUsed m now) = true
        /\ used_words (on_word_used py_lower m now s) = used_words s ++ [py_lower m])
  /\ ((forall text, py_lower (py_lower text) = py_lower text) ->
      forall i j w1 w2,
        used_words s !! i = Some w1 -> used_words s !! j = Some w2 ->
        py_lower w1 = py_lower w2 -> i = j).
Proof.
  intros Hrun.
  assert (Hw : words_distinct py_lower s).
  { revert Hrun.
    apply (run_invariant py_int py_lower (words_distinct py_lower) (checked_words py_lower)).
    - intros f c s1 s2. apply words_distinct_step.
    - apply words_distinct_init. }
  destruct Hw as [Hnd Hlow]. rewrite Forall_forall in Hlow.
  split; [exact Hnd|]. split; [exact Hlow|]. split.
  - intros m now Hin. pose proof (check_message_used m s Hin) as H.
    split; [exact H|].
    assert (Hg : checked_words py_lower s (OnWordUsed m now) = false)
      by (cbn [checked_words]; now rewrite H).
    split; [exact Hg|].
    clear - Hrun Hg. revert Hrun. generalize (init letters).
    induction cs as [|c cs' IH]; intros s0; cbn [run app].
    + intros [= ->]. now rewrite Hg.
    + destruct (checked_words py_lower s0 c); [|discriminate].
      destruct (exec py_int py_lower fuel c s0) as [s1|]; [|discriminate].
      apply IH.
  - split; [|split].
    + intros m1 m2 now now' Heq.
      pose proof (check_message_refuses m1 m2 now s Heq) as H.
      split; [exact H|]. cbn [checked_words]. now rewrite H.
    + intros m now H. split; [now apply check_message_accepts|].
      split; [cbn [checked_words]; now rewrite H | reflexivity].
    + intros Hidem i j w1 w2 Hi Hj Heq.
      assert (Hw1 : py_lower w1 = w1).
      { destruct (Hlow w1) as [t ->]; [eapply list_elem_of_lookup_2; eauto | apply Hidem]. }
      assert (Hw2 : py_lower w2 = w2).
      { destruct (Hlow w2) as [t ->]; [eapply list_elem_of_lookup_2; eauto | apply Hidem]. }
      rewrite Hw1, Hw2 in Heq. subst w2.
      eapply NoDup_lookup; eauto.
Qed.

End UsedWords.

(** ** Lives and membership *)

Lemma party_get_alter (f : player -> player) (u u' : string) (p : list (string * player)) :
  party_get u' (party_alter f u p)
  = if String.eqb u' u then f <$> party_get u p else party_get u' p.
Proof.
  unfold party_alter. induction p as [|[k v] p IH]; cbn.
  - now destruct (String.eqb u' u).
  - destruct (String.eqb_spec k u) as [->|Hku]; cbn.
    + destruct (String.eqb_spec u u') as [->|Huu'].
      * now rewrite String.eqb_refl.
      * rewrite IH. destruct (String.eqb_spec u' u); [congruence | reflexivity].
    + destruct (String.eqb_spec k u') as [->|Hku'].
      * destruct (String.eqb_spec u' u); [congruence | reflexivity].
      * exact IH.
Qed.

Lemma party_alter_nonneg (f : player -> player) (u : string) (p : list (string * player)) :
  (forall v, 0 <= BombPartyPlayer.lives (f v)) ->
  Forall (fun kv => 0 <= BombPartyPlayer.lives kv.2) p ->
  Forall (fun kv => 0 <= BombPartyPlayer.lives kv.2) (party_alter f u p).
Proof.
  intros Hf. unfold party_alter. induction 1 as [|[k v] p Hv Hp IH]; cbn; constructor; auto.
  destruct (String.eqb k u); cbn; auto.
Qed.

Lemma party_del_nonneg (u : string) (p : list (string * player)) :
  Forall (fun kv => 0 <= BombPartyPlayer.lives kv.2) p ->
  Forall (fun kv => 0 <= BombPartyPlayer.lives kv.2) (party_del u p).
Proof.
  unfold party_del. induction 1 as [|[k v] p Hv Hp IH]; cbn; [constructor|].
  destruct (negb _); [constructor|]; auto.
Qed.

Section Lives.

Variable py_int : string -> option Z.
Variable py_lower : string -> string.

Lemma lives_nonneg_step (fuel : nat) (c : call) (s s' : BombParty.t) :
  consistent s -> lives_nonneg s -> live_explosions s c = true ->
  exec py_int py_lower fuel c s = Some s' -> lives_nonneg s'.
Proof.
  intros Hc Hl Hg. unfold lives_nonneg in *.
  destruct c as [u|u| |rand now|m now| | |now|rand|n v|m]; cbn [exec].
  - intros [= <-]. unfold add_player. destruct (negb _); [|exact Hl].
    cbn. apply Forall_app. split; [exact Hl|]. constructor; [|constructor].
    cbn. pose proof (lives_setting_valid s Hc). lia.
  - intros [= <-]. unfold remove_player. destruct (party_has u (party s)); [|exact Hl].
    destruct (started s); cbn.
    + apply party_alter_nonneg; [cbn; lia | exact Hl].
    + now apply party_del_nonneg.
  - now intros [= <-].
  - now intros [= <-].
  - now intros [= <-].
  - intros H. apply on_explode_frame in H as (t & t' & pty & -> & Hp). cbn.
    destruct Hp as [-> | (u & p & _ & Hp & ->)]; [exact Hl|].
    cbn [live_explosions] in Hg. rewrite Hp in Hg. apply Z.ltb_lt in Hg.
    apply party_alter_nonneg; [cbn; lia | exact Hl].
  - intros [= <-]. constructor.
  - intros H. apply next_player_frame in H as (i & t & ->). exact Hl.
  - intros H. apply set_letters_frame in H as [f ->]. exact Hl.
  - intros [= <-].
    destruct (set_setting_frame py_int n v s)
      as [-> | (k & w & Hv & [[Hk ->] | (z & Hz & ->)])]; [exact Hl..|].
    cbn. apply Forall_forall. intros kv Hin.
    apply list_elem_of_In, List.in_map_iff in Hin as [kv' [<- _]]. cbn. lia.
  - intros [= <-]. now rewrite check_message_state.
Qed.

(** While a game is started, a call other than [on_close] removes no
    key of the party and no entry of the turn order. *)
Lemma started_step (fuel : nat) (c : call) (s s' : BombParty.t) :
  consistent s -> started s = true -> c <> OnClose ->
  exec py_int py_lower fuel c s = Some s' ->
  started s' = true
  /\ (forall u, u ∈ party_keys (party s) -> u ∈ party_keys (party s'))
  /\ (forall u, u ∈ turn_order s -> u ∈ turn_order s')
  /\ (length (party s) <= length (party s'))%nat
  /\ (length (turn_order s) <= length (turn_order s'))%nat.
Proof.
  intros Hc Hst Hne.
  destruct c as [u|u| |rand now|m now| | |now|rand|n v|m]; cbn [exec]; try congruence.
  - intros [= <-]. unfold add_player. destruct (negb _); [|auto 6].
    cbn -[party_keys]. split; [exact Hst|]. split.
    { intros x Hx. unfold party_keys. rewrite fmap_app. apply elem_of_app. now left. }
    split; [auto|]. split; [rewrite length_app; lia | lia].
  - intros [= <-]. unfold remove_player. destruct (party_has u (party s)); [|auto 6].
    rewrite Hst. cbn -[party_keys]. rewrite party_alter_keys, party_alter_length. auto 6.
  - intros [= <-]. cbn. auto 6.
  - intros [= <-].
    destruct (on_start_fields rand now s) as (Hto & _ & Hp & Hs & _).
    rewrite Hto, Hp, Hs.
    pose proof (shuffle_perm rand (party_keys (party s))) as Hperm.
    split; [reflexivity|]. split; [auto|]. split.
    { intros x Hx. rewrite Hperm. now apply (order_in_party s Hc). }
    split; [lia|].
    rewrite (Permutation_length Hperm).
    apply submseteq_length, NoDup_submseteq; [apply (order_nodup s Hc)|].
    apply (order_in_party s Hc).
  - intros [= <-]. cbn. auto 6.
  - intros H. apply on_explode_frame in H as (t & t' & pty & -> & Hp). cbn -[party_keys].
    destruct Hp as [-> | (u & p & _ & _ & ->)];
      rewrite ?party_alter_keys, ?party_alter_length; auto 6.
  - intros H. apply next_player_frame in H as (i & t & ->). cbn. auto 6.
  - intros H. apply set_letters_frame in H as [f ->]. cbn. auto 6.
  - intros [= <-].
    destruct (set_setting_frame py_int n v s)
      as [-> | (k & w & Hv & [[Hk ->] | (z & Hz & ->)])]; [auto 6| cbn; auto 6|].
    cbn -[party_keys]. rewrite length_map.
    assert (Hkeys : party_keys (List.map (fun kv => (kv.1, BombPartyPlayer.with_lives z kv.2)) (party s))
                    = party_keys (party s)).
    { unfold party_keys. rewrite <- list_fmap_compose.
      apply list_fmap_ext. intros ? [? ?] ?. reflexivity. }
    rewrite Hkeys. auto 6.
  - intros [= <-]. rewrite check_message_state. auto 6.
Qed.

(** In a started game [remove_player] sets the lives of the player to 0
    and removes nothing. *)
Lemma remove_player_started (u : string) (s : BombParty.t) :
  started s = true ->
  party_keys (party (remove_player u s)) = party_keys (party s)
  /\ turn_order (remove_player u s) = turn_order s
  /\ (forall p, party_get u (party s) = Some p ->
        party_get u (party (remove_player u s)) = Some (BombPartyPlayer.with_lives 0 p))
  /\ (forall u', u' <> u ->
        party_get u' (party (remove_player u s)) = party_get u' (party s)).
Proof.
  intros Hst. unfold remove_player, party_has.
  destruct (party_get u (party s)) as [p|] eqn:Hp; rewrite ?Hst; cbn -[party_keys].
  - rewrite party_alter_keys. split; [reflexivity|]. split; [reflexivity|]. split.
    + intros q [= <-]. now rewrite party_get_alter, String.eqb_refl, Hp.
    + intros u' Hne. rewrite party_get_alter.
      destruct (String.eqb_spec u' u); [congruence | reflexivity].
  - split; [reflexivity|]. split; [reflexivity|]. split; [discriminate | reflexivity].
Qed.

(** C8, as the source has it.  Take a state that a sequence of calls of
    any kind reaches from a new game.  If in that sequence the bomb
    explodes only on a current player who still has a life, every player
    has at least 0 lives.  With or without that proviso: if the game is
    started, any one call other than [on_close] leaves it started, keeps
    every key of the party and every entry of the turn order, and
    shortens neither; [remove_player] then sets the lives of the player
    to 0 and touches no other player. *)
Theorem lives_nonneg_and_members_kept (letters : list (string * list string))
    (fuel : nat) (cs : list call) (s : BombParty.t) :
  run py_int py_lower any_call fuel cs (init letters) = Some s ->
  (run py_int py_lower live_explosions fuel cs (init letters) = Some s ->
   Forall (fun kv => 0 <= BombPartyPlayer.lives kv.2) (party s))
  /\ (forall fuel' c s', started s = true -> c <> OnClose ->
        exec py_int py_lower fuel' c s = Some s' ->
        started s' = true
        /\ (forall u, u ∈ party_keys (party s) -> u ∈ party_keys (party s'))
        /\ (forall u, u ∈ turn_order s -> u ∈ turn_order s')
        /\ (length (party s) <= length (party s'))%nat
        /\ (length (turn_order s) <= length (turn_order s'))%nat)
  /\ (forall u, started s = true ->
        party_keys (party (remove_player u s)) = party_keys (party s)
        /\ turn_order (remove_player u s) = turn_order s
        /\ (forall p, party_get u (party s) = Some p ->
              party_get u (party (remove_player u s)) = Some (BombPartyPlayer.with_lives 0 p))
        /\ (forall u', u' <> u ->
              party_get u' (party (remove_player u s)) = party_get u' (party s))).
Proof.
  intros Hany.
  assert (Hc : consistent s) by exact (consistent_run py_int py_lower _ _ _ _ _ Hany).
  split; [|split].
  - intros Hrun.
    assert (Hinv : consistent s /\ lives_nonneg s); [|exact (proj2 Hinv)].
    revert Hrun.
    apply (run_invariant py_int py_lower (fun s => consistent s /\ lives_nonneg s) live_explosions).
    + intros f c s1 s2 [Hc1 Hl] Hg He. split.
      * now apply (consistent_step py_int py_lower f c s1).
      * now apply (lives_nonneg_step f c s1).
    + split; [apply consistent_init | constructor].
  - intros fuel' c s' Hst Hne He. now apply (started_step fuel' c s).
  - intros u Hst. now apply remove_player_started.
Qed.

End Lives.

(** ** Passing the turn *)

Section NextPlayer.

Variables (s : BombParty.t) (who : string).

Let n : nat := length (turn_order s).

(** The test of the loop of [next_player] at a position. *)
Let passes (i : nat) : bool :=
  match player_at s i with
  | Some p => (BombPartyPlayer.lives p =? 0) || String.eqb (BombPartyPlayer.user p) who
  | None => false
  end.

Let stops (i : nat) : bool :=
  match player_at s i with
  | Some p => negb ((BombPartyPlayer.lives p =? 0) || String.eqb (BombPartyPlayer.user p) who)
  | None => false
  end.

Lemma current_player_at (i : nat) (p : player) :
  player_at s i = Some p -> current_player (set_current_player_index i s) = Val (Some p).
Proof.
  unfold player_at, current_player, current_key.
  cbn [turn_order party current_player_index set_current_player_index].
  destruct (turn_order s !! i) as [u|] eqn:Hu; [|discriminate].
  intros Hp. apply lookup_lt_Some in Hu.
  destruct (Nat.eqb_spec (length (turn_order s)) 0); [lia|].
  now rewrite Hp.
Qed.

Lemma succ_index_mod (i : nat) :
  (i < n)%nat -> succ_index (set_current_player_index i s) = ((i + 1) mod n)%nat.
Proof.
  intros Hi. unfold succ_index. cbn. fold n.
  destruct (Z.eqb_spec (Z.of_nat i) (Z.of_nat n - 1)) as [He|Hne].
  - replace (i + 1)%nat with n by lia. symmetry. apply Nat.Div0.mod_same.
  - rewrite Nat.mod_small by lia. lia.
Qed.

(** From position [i] the loop passes [k] entries and stops at the next. *)
Lemma next_player_loop_skips (k : nat) :
  forall (i fuel : nat),
    (i < n)%nat -> (k < fuel)%nat ->
    (forall j, (j < k)%nat -> passes ((i + j) mod n) = true) ->
    stops ((i + k) mod n) = true ->
    next_player_loop fuel who (set_current_player_index i s)
    = Ok tt (set_current_player_index ((i + k) mod n) s).
Proof.
  induction k as [|k IH]; intros i fuel Hi Hfuel Hpass Hstop.
  - destruct fuel as [|fuel]; [lia|].
    rewrite Nat.add_0_r, Nat.mod_small in * by lia.
    unfold stops in Hstop. destruct (player_at s i) as [p|] eqn:Hp; [|discriminate].
    cbn [next_player_loop]. rewrite (current_player_at i p Hp).
    apply negb_true_iff in Hstop. now rewrite Hstop.
  - destruct fuel as [|fuel]; [lia|].
    pose proof (Hpass 0%nat ltac:(lia)) as H0.
    rewrite Nat.add_0_r, Nat.mod_small in H0 by lia.
    unfold passes in H0. destruct (player_at s i) as [p|] eqn:Hp; [|discriminate].
    cbn [next_player_loop]. rewrite (current_player_at i p Hp), H0.
    rewrite succ_index_mod by exact Hi.
    change (set_current_player_index ((i + 1) mod n) (set_current_player_index i s))
      with (set_current_player_index ((i + 1) mod n) s).
    assert (Hn : (0 < n)%nat) by lia.
    rewrite (IH ((i + 1) mod n)%nat fuel).
    + rewrite Nat.Div0.add_mod_idemp_l. do 3 f_equal. lia.
    + apply Nat.mod_upper_bound. lia.
    + lia.
    + intros j Hj. rewrite Nat.Div0.add_mod_idemp_l.
      replace (i + 1 + j)%nat with (i + S j)%nat by lia. apply Hpass. lia.
    + rewrite Nat.Div0.add_mod_idemp_l.
      replace (i + 1 + k)%nat with (i + S k)%nat by lia. exact Hstop.
Qed.

End NextPlayer.

(** The least position at which a test holds, below one at which it does. *)
Lemma least_true (P : nat -> bool) (m : nat) :
  P m = true -> exists k, (k <= m)%nat /\ P k = true /\ forall j, (j < k)%nat -> P j = false.
Proof.
  induction m as [m IH] using lt_wf_ind. intros Hm.
  destruct (List.existsb P (seq 0 m)) eqn:Hex.
  - apply List.existsb_exists in Hex as (m' & Hin & Hm').
    apply List.in_seq in Hin. destruct (IH m' ltac:(lia) Hm') as (k & Hk & HPk & Hleast).
    exists k. split; [lia | auto].
  - exists m. split; [lia|]. split; [exact Hm|].
    intros j Hj. destruct (P j) eqn:HPj; [|reflexivity].
    assert (List.existsb P (seq 0 m) = true); [|congruence].
    apply List.existsb_exists. exists j. split; [apply List.in_seq; lia | exact HPj].
Qed.

Lemma player_at_lt (s : BombParty.t) (i : nat) (p : player) :
  player_at s i = Some p -> (i < length (turn_order s))%nat.
Proof.
  unfold player_at. destruct (turn_order s !! i) eqn:H; [|discriminate].
  intros _. now apply lookup_lt_Some in H.
Qed.

Lemma player_at_some (s : BombParty.t) (i : nat) :
  (forall u, u ∈ turn_order s -> party_has u (party s) = true) ->
  (i < length (turn_order s))%nat -> exists p, player_at s i = Some p.
Proof.
  intros Hwf Hi. unfold player_at.
  destruct (lookup_lt_is_Some_2 (turn_order s) i Hi) as [u Hu]. rewrite Hu.
  assert (Hin : u ∈ turn_order s) by (eapply list_elem_of_lookup_2; eauto).
  apply Hwf in Hin. unfold party_has in Hin.
  destruct (party_get u (party s)); [eauto | discriminate].
Qed.

Lemma current_player_Some (s : BombParty.t) (p : player) :
  current_player s = Val (Some p) -> player_at s (current_player_index s) = Some p.
Proof.
  unfold current_player, current_key, player_at.
  destruct (length (turn_order s) =? 0)%nat; [discriminate|].
  destruct (turn_order s !! current_player_index s) as [u|]; [|discriminate].
  destruct (party_get u (party s)); [now intros [= ->] | discriminate].
Qed.

(** C3, as the source has it.  Let the current player be [p0], let every
    entry of the turn order be a key of the party, and let the turn order
    hold a player other than [p0] with lives other than 0.  Then
    [next_player] returns, within as many tests of its loop as the turn
    order is long.  It moves the index forward by some [k] between 1 and
    the length less one, wrapping to 0 past the last index, and sets the
    start time of the countdown to the clock.  The player it stops at is
    not [p0] and has lives other than 0: more than 0 when no player has
    negative lives.  Every entry passed on the way has 0 lives or is
    [p0].  Nothing else changes. *)
Theorem next_player_spec (s : BombParty.t) (now : Q) (p0 : player) :
  current_player s = Val (Some p0) ->
  (forall u, u ∈ turn_order s -> party_has u (party s) = true) ->
  (exists i p, player_at s i = Some p /\ BombPartyPlayer.lives p <> 0
               /\ BombPartyPlayer.user p <> BombPartyPlayer.user p0) ->
  let n := length (turn_order s) in
  let i0 := current_player_index s in
  exists k p',
    (1 <= k < n)%nat
    /\ (forall fuel, (k < fuel)%nat ->
          next_player fuel now s
          = Ok tt (set_bomb_start_time now
                     (set_current_player_index ((i0 + k) mod n) s)))
    /\ next_player n now s
       = Ok tt (set_bomb_start_time now (set_current_player_index ((i0 + k) mod n) s))
    /\ current_player (set_bomb_start_time now (set_current_player_index ((i0 + k) mod n) s))
       = Val (Some p')
    /\ player_at s ((i0 + k) mod n) = Some p'
    /\ BombPartyPlayer.lives p' <> 0
    /\ BombPartyPlayer.user p' <> BombPartyPlayer.user p0
    /\ (forall j q, (j < k)%nat -> player_at s ((i0 + j) mod n) = Some q ->
          BombPartyPlayer.lives q = 0 \/ BombPartyPlayer.user q = BombPartyPlayer.user p0)
    /\ (Forall (fun kv => 0 <= BombPartyPlayer.lives kv.2) (party s) ->
        0 < BombPartyPlayer.lives p').
Proof.
  intros Hcur Hwf (i1 & p1 & Hp1 & Hl1 & Hu1) n i0.
  set (who := BombPartyPlayer.user p0).
  set (test := fun p : player =>
                 (BombPartyPlayer.lives p =? 0) || String.eqb (BombPartyPlayer.user p) who).
  set (stops := fun i => match player_at s i with
                         | Some p => negb (test p)
                         | None => false
                         end).
  pose proof (current_player_Some s p0 Hcur) as Hp0. fold i0 in Hp0.
  pose proof (player_at_lt s i0 p0 Hp0) as Hi0. fold n in Hi0.
  pose proof (player_at_lt s i1 p1 Hp1) as Hi1. fold n in Hi1.
  (* some position ahead stops the loop *)
  set (d := ((i1 + n - i0) mod n)%nat).
  assert (Hd : ((i0 + d) mod n = i1)%nat).
  { unfold d. rewrite Nat.Div0.add_mod_idemp_r.
    replace (i0 + (i1 + n - i0))%nat with (i1 + 1 * n)%nat by lia.
    rewrite Nat.Div0.mod_add. apply Nat.mod_small. lia. }
  assert (Hstop_d : stops ((i0 + d) mod n)%nat = true).
  { rewrite Hd. unfold stops, test. rewrite Hp1. apply negb_true_iff, orb_false_iff. split.
    - now apply Z.eqb_neq.
    - now apply String.eqb_neq. }
  destruct (least_true (fun k => stops ((i0 + k) mod n)%nat) d Hstop_d)
    as (k & Hkd & Hstop & Hleast).
  assert (Hdn : (d < n)%nat) by (apply Nat.mod_upper_bound; lia).
  assert (Hk0 : k <> 0%nat).
  { intros ->. rewrite Nat.add_0_r, Nat.mod_small in Hstop by lia.
    unfold stops, test in Hstop. rewrite Hp0 in Hstop. unfold who in Hstop.
    rewrite String.eqb_refl, orb_true_r in Hstop. discriminate. }
  destruct (player_at s ((i0 + k) mod n)) as [p'|] eqn:Hp';
    [|unfold stops in Hstop; rewrite Hp' in Hstop; discriminate].
  assert (Htest : test p' = false).
  { unfold stops in Hstop. rewrite Hp' in Hstop. now apply negb_true_iff in Hstop. }
  apply orb_false_iff in Htest as [Hl' Hu'].
  apply Z.eqb_neq in Hl'. apply String.eqb_neq in Hu'.
  assert (Hpass : forall j, (j < k)%nat ->
            exists q, player_at s ((i0 + j) mod n) = Some q /\ test q = true).
  { intros j Hj.
    destruct (player_at_some s ((i0 + j) mod n) Hwf) as [q Hq];
      [apply Nat.mod_upper_bound; lia|].
    exists q. split; [exact Hq|].
    specialize (Hleast j Hj). unfold stops in Hleast. rewrite Hq in Hleast.
    now apply negb_false_iff in Hleast. }
  assert (Hloop : forall fuel, (k < fuel)%nat ->
            next_player_loop fuel who s
            = Ok tt (set_current_player_index ((i0 + k) mod n) s)).
  { intros fuel Hfuel.
    pose proof (next_player_loop_skips s who k i0 fuel Hi0 Hfuel) as H. cbv zeta in H.
    replace (set_current_player_index i0 s) with s in H by (now destruct s).
    apply H.
    - intros j Hj. destruct (Hpass j Hj) as (q & Hq & Htq). fold n. now rewrite Hq.
    - fold n. rewrite Hp'. apply negb_true_iff, orb_false_iff. split.
      + now apply Z.eqb_neq.
      + now apply String.eqb_neq. }
  assert (Hnext : forall fuel, (k < fuel)%nat ->
            next_player fuel now s
            = Ok tt (set_bomb_start_time now (set_current_player_index ((i0 + k) mod n) s))).
  { intros fuel Hfuel. unfold next_player. rewrite Hcur. fold who.
    now rewrite (Hloop fuel Hfuel). }
  exists k, p'.
  split; [lia|]. split; [exact Hnext|]. split; [apply Hnext; lia|].
  split.
  { pose proof (current_player_at s ((i0 + k) mod n) p' Hp') as H. exact H. }
  split; [exact Hp'|]. split; [exact Hl'|]. split; [exact Hu'|]. split.
  - intros j q Hj Hq. destruct (Hpass j Hj) as (q' & Hq' & Htq).
    rewrite Hq in Hq'. injection Hq' as <-.
    apply orb_true_iff in Htq as [H|H].
    + left. now apply Z.eqb_eq.
    + right. now apply String.eqb_eq.
  - intros Hnn. rewrite Forall_forall in Hnn.
    unfold player_at in Hp'. destruct (turn_order s !! ((i0 + k) mod n)%nat) as [u|]; [|discriminate].
    apply party_get_Some in Hp'. specialize (Hnn _ Hp'). cbn in Hnn. lia.
Qed.

(** Alone among the living, the current player keeps the loop of
    [next_player] running: no number of tests is enough. *)
Lemma next_player_loop_alone (s : BombParty.t) (who : string) :
  (forall i, (i < length (turn_order s))%nat ->
     exists p, player_at s i = Some p
       /\ (BombPartyPlayer.lives p =? 0) || String.eqb (BombPartyPlayer.user p) who = true) ->
  forall fuel i, (i < length (turn_order s))%nat ->
    next_player_loop fuel who (set_current_player_index i s) = OutOfFuel.
Proof.
  intros Hall fuel. induction fuel as [|fuel IH]; intros i Hi; [reflexivity|].
  destruct (Hall i Hi) as (p & Hp & Ht).
  cbn [next_player_loop]. rewrite (current_player_at s i p Hp), Ht.
  rewrite succ_index_mod by exact Hi.
  change (set_current_player_index ((i + 1) mod length (turn_order s))
            (set_current_player_index i s))
    with (set_current_player_index ((i + 1) mod length (turn_order s)) s).
  apply IH. apply Nat.mod_upper_bound. lia.
Qed.

(** X23.  When every entry of the turn order has 0 lives or is the current
    player, [next_player] does not return, whatever the number of tests
    allowed to its loop: the host has to look for a winner first. *)
Lemma next_player_alone (s : BombParty.t) (now : Q) (p0 : player) :
  current_player s = Val (Some p0) ->
  (forall i, (i < length (turn_order s))%nat ->
     exists p, player_at s i = Some p
       /\ (BombPartyPlayer.lives p = 0
           \/ BombPartyPlayer.user p = BombPartyPlayer.user p0)) ->
  forall fuel, next_player fuel now s = OutOfFuel.
Proof.
  intros Hcur Hall fuel. unfold next_player. rewrite Hcur.
  pose proof (player_at_lt s _ p0 (current_player_Some s p0 Hcur)) as Hi.
  replace s with (set_current_player_index (current_player_index s) s) at 1
    by (now destruct s).
  rewrite next_player_loop_alone; [reflexivity | | exact Hi].
  intros i Hlt. destruct (Hall i Hlt) as (p & Hp & Hor).
  exists p. split; [exact Hp|]. apply orb_true_iff.
  destruct Hor as [H | H]; [left; now apply Z.eqb_eq | right; now apply String.eqb_eq].
Qed.

(** ** The claims on example games *)

Import Examples.

(** C3, as the specification words it, fails.  Three players; the turn
    is with the first, the second has -1 lives after leaving on their
    turn and exploding, the third has 3.  [next_player] stops at the
    second player, whose lives are not more than 0. *)
Lemma next_player_stops_at_negative_lives :
  exists s s',
    run Py.int_ascii Py.ascii_fold any_call 3 round_with_leaver (init []) = Some s
    /\ current_player s = Val (Some (BombPartyPlayer.mk "a" 3))
    /\ player_at s 2 = Some (BombPartyPlayer.mk "c" 3)
    /\ next_player 3 4%Q s = Ok tt s'
    /\ current_player_index s' = 1%nat
    /\ current_player s' = Val (Some (BombPartyPlayer.mk "b" (-1)))
    /\ ~ 0 < BombPartyPlayer.lives (BombPartyPlayer.mk "b" (-1)).
Proof.
  do 2 eexists. split; [vm_compute; reflexivity|].
  split; [vm_compute; reflexivity|]. split; [vm_compute; reflexivity|].
  split; [vm_compute; reflexivity|].
  repeat apply conj; vm_compute; congruence.
Qed.

Lemma next_player_spec_witness :
  exists k,
    (1 <= k < 2)%nat
    /\ next_player 2 1%Q two_started
       = Ok tt (set_bomb_start_time 1%Q
                  (set_current_player_index ((0 + k) mod 2) two_started)).
Proof.
  assert (H1 : current_player two_started = Val (Some (BombPartyPlayer.mk "a" 3)))
    by reflexivity.
  assert (H2 : forall u, u ∈ turn_order two_started -> party_has u (party two_started) = true).
  { intros u Hu. apply list_elem_of_In in Hu. cbn in Hu.
    destruct Hu as [<- | [<- | []]]; reflexivity. }
  assert (H3 : exists i p, player_at two_started i = Some p
                 /\ BombPartyPlayer.lives p <> 0
                 /\ BombPartyPlayer.user p <> BombPartyPlayer.user (BombPartyPlayer.mk "a" 3)).
  { exists 1%nat, (BombPartyPlayer.mk "b" 3).
    split; [reflexivity|]. split; [cbn; lia | cbn; discriminate]. }
  destruct (next_player_spec two_started 1%Q _ H1 H2 H3) as (k & p' & Hk & _ & Hn & _).
  exists k. split; [exact Hk | exact Hn].
Defined.

(** C8, as the specification words it, fails.  The current player leaves
    a started game, which sets their lives to 0; the bomb then explodes
    on them and their lives are -1.  And [on_close], called in a started
    game, empties the party and the turn order. *)
Lemma lives_negative_after_leave_and_explode :
  exists s s1,
    run Py.int_ascii Py.ascii_fold any_call 0 leaver_explodes (init []) = Some s
    /\ party s = [("a", BombPartyPlayer.mk "a" (-1)); ("b", BombPartyPlayer.mk "b" 3)]
    /\ ~ Forall (fun kv => 0 <= BombPartyPlayer.lives kv.2) (party s)
    /\ run Py.int_ascii Py.ascii_fold any_call 0 two_join (init []) = Some s1
    /\ started s1 = true
    /\ turn_order s1 = ["a"; "b"]
    /\ party_keys (party s1) = ["a"; "b"]
    /\ turn_order (on_close s1) = []
    /\ party (on_close s1) = [].
Proof.
  do 2 eexists. split; [vm_compute; reflexivity|]. split; [reflexivity|].
  split.
  { intros H. apply Forall_cons in H as [H _]. cbn in H. lia. }
  split; [vm_compute; reflexivity|].
  repeat apply conj; reflexivity.
Qed.

(** C4, as the specification words it, fails.  The letters are "ai"
    and the text is an a followed by a capital I with a dot above: two
    characters, as many as the letters.  Its lowercase has three, an a,
    an i and a combining dot; the letters occur in it, and the text is
    accepted. *)
Lemma check_message_length_after_lowering :
  let text := String "a" (String Py.dotted_I "") in
  exists s,
    run Py.int_ascii Py.lower_sample any_call 0 [SetLetters largest] (init [("medium", ["ai"])])
    = Some s
    /\ current_letters s = "ai"
    /\ used_words s = []
    /\ Py.lower_sample text = String "a" (String "i" (String Py.dot_above ""))
    /\ Py.contains (current_letters s) (Py.lower_sample text) = true
    /\ String.length text = String.length (current_letters s)
    /\ (check_message Py.lower_sample text s).1 = None
    /\ (check_message Py.lower_sample text s).1 <> Some msg_trivial.
Proof.
  cbv zeta. eexists. split; [vm_compute; reflexivity|].
  repeat apply conj; vm_compute; congruence.
Qed.

Lemma on_start_turn_order_witness :
  exists s,
    run Py.int_ascii Py.ascii_fold any_call 0
      [AddPlayer "a"; AddPlayer "b"; AddPlayer "c"; RemovePlayer "b"; AddPlayer "d"] (init [])
    = Some s
    /\ started s = false
    /\ party_keys (party s) = ["a"; "c"; "d"]
    /\ turn_order (on_start (fun n => 0%nat) 7 s) = ["c"; "d"; "a"]
    /\ turn_order (on_start (fun n => 0%nat) 7 s) ≡ₚ party_keys (party s)
    /\ length (turn_order (on_start (fun n => 0%nat) 7 s)) = length (party s)
    /\ current_player_index (on_start (fun n => 0%nat) 7 s) = 0%nat.
Proof.
  eexists. split; [vm_compute; reflexivity|]. split; [reflexivity|].
  split; [reflexivity|]. split; [vm_compute; reflexivity|].
  assert (H := on_start_turn_order Py.int_ascii Py.ascii_fold [] 0
           [AddPlayer "a"; AddPlayer "b"; AddPlayer "c"; RemovePlayer "b"; AddPlayer "d"]
           (fun n => 0%nat) 7).
  specialize (H _ ltac:(vm_compute; reflexivity) eq_refl).
  destruct H as (H1 & H2 & H3 & _). exact (conj H1 (conj H2 H3)).
Defined.

Lemma lives_nonneg_and_members_kept_witness :
  exists s,
    run Py.int_ascii Py.ascii_fold any_call 0 (two_join ++ [OnExplode; RemovePlayer "a"]) (init [])
    = Some s
    /\ run Py.int_ascii Py.ascii_fold live_explosions 0
         (two_join ++ [OnExplode; RemovePlayer "a"]) (init [])
       = Some s
    /\ started s = true
    /\ Forall (fun kv => 0 <= BombPartyPlayer.lives kv.2) (party s)
    /\ party_keys (party (remove_player "b" s)) = party_keys (party s)
    /\ turn_order (remove_player "b" s) = turn_order s.
Proof.
  eexists. split; [vm_compute; reflexivity|]. split; [vm_compute; reflexivity|].
  split; [reflexivity|].
  assert (H := lives_nonneg_and_members_kept Py.int_ascii Py.ascii_fold [] 0
                 (two_join ++ [OnExplode; RemovePlayer "a"])).
  specialize (H _ ltac:(vm_compute; reflexivity)).
  destruct H as (H1 & _ & H3).
  split; [apply H1; vm_compute; reflexivity|].
  destruct (H3 "b" eq_refl) as (H4 & H5 & _).
  exact (conj H4 H5).
Defined.

(** C9, as the specification words it, fails.  With one player at -1
    lives and one at 3, exactly one player has more than 0 lives and
    [get_winner] returns nothing; with a single player at -1 lives no
    player has more than 0 lives and [get_winner] returns that player. *)
Lemma get_winner_with_negative_lives :
  exists s s1,
    run Py.int_ascii Py.ascii_fold any_call 0 leaver_explodes (init []) = Some s
    /\ party_values (party s) = [BombPartyPlayer.mk "a" (-1); BombPartyPlayer.mk "b" 3]
    /\ get_winner s = None
    /\ run Py.int_ascii Py.ascii_fold any_call 0 lone_leaver_explodes (init []) = Some s1
    /\ party_values (party s1) = [BombPartyPlayer.mk "a" (-1)]
    /\ get_winner s1 = Some (BombPartyPlayer.mk "a" (-1)).
Proof.
  do 2 eexists. split; [vm_compute; reflexivity|].
  split; [reflexivity|]. split; [reflexivity|].
  split; [vm_compute; reflexivity|].
  split; reflexivity.
Qed.

Lemma used_words_distinct_up_to_case_witness :
  exists s,
    run Py.int_ascii Py.ascii_fold (checked_words Py.ascii_fold) 0 some_words (init []) = Some s
    /\ used_words s = ["cat"; "dog"]
    /\ NoDup (used_words s)
    /\ (forall i j w1 w2,
          used_words s !! i = Some w1 -> used_words s !! j = Some w2 ->
          Py.ascii_fold w1 = Py.ascii_fold w2 -> i = j)
    /\ run Py.int_ascii Py.ascii_fold (checked_words Py.ascii_fold) 0
         (some_words ++ [OnWordUsed "CAT" 3]) (init []) = None.
Proof.
  eexists. split; [vm_compute; reflexivity|]. split; [reflexivity|].
  assert (H := used_words_distinct_up_to_case Py.int_ascii Py.ascii_fold [] 0 some_words).
  specialize (H _ ltac:(vm_compute; reflexivity)).
  destruct H as (H1 & _ & H3 & _ & _ & H5).
  split; [exact H1|]. split; [exact (H5 ascii_fold_idemp)|].
  apply (H3 "CAT" 3%Q). vm_compute. apply list_elem_of_here.
Defined.

(** C7, as the specification words it, fails.  The host checks and then
    records STRASSE, then the same word written with a sharp s in small
    letters.  The lowercase of the first is the word with a double s, the
    second is its own lowercase, so the second is accepted and both are
    recorded; yet the two differ in case only: the first is the second in
    capitals. *)
Lemma used_words_equal_up_to_case :
  let w1 := "STRASSE" in
  let w2 := "stra" +:+ String Py.sharp_s "e" in
  exists s1 s,
    run Py.int_ascii Py.lower_sample (checked_words Py.lower_sample) 0
      [CheckMessage w1; OnWordUsed w1 1] (init []) = Some s1
    /\ used_words s1 = ["strasse"]
    /\ (check_message Py.lower_sample w2 s1).1 = None
    /\ run Py.int_ascii Py.lower_sample (checked_words Py.lower_sample) 0
         [CheckMessage w1; OnWordUsed w1 1; CheckMessage w2; OnWordUsed w2 2] (init [])
       = Some s
    /\ used_words s = ["strasse"; w2]
    /\ "strasse" <> w2
    /\ Py.upper_sample w2 = w1
    /\ Py.upper_sample "strasse" = Py.upper_sample w2.
Proof.
  cbv zeta. do 2 eexists. split; [vm_compute; reflexivity|]. split; [reflexivity|].
  split; [vm_compute; reflexivity|]. split; [vm_compute; reflexivity|].
  repeat apply conj; vm_compute; congruence.
Qed.

Lemma set_lives_cascade_witness :
  Py.int_ascii "2" = Some 2
  /\ 1 <= 2 <= 5
  /\ Forall (fun kv => BombPartyPlayer.lives kv.2 = 2)
            (party (set_setting Py.int_ascii "lives" "2" two_started).2).
Proof.
  split; [reflexivity|]. split; [lia|].
  apply (set_lives_cascade Py.int_ascii two_started "2" 2 eq_refl).
  lia.
Defined.

Lemma set_setting_failure_keeps_state_witness :
  setting_failure (set_setting Py.int_ascii "lives" "9" two_started).1
  /\ (set_setting Py.int_ascii "lives" "9" two_started).2 = two_started.
Proof.
  assert (H : setting_failure (set_setting Py.int_ascii "lives" "9" two_started).1)
    by (right; right; reflexivity).
  split; [exact H|].
  apply (set_setting_failure_keeps_state Py.int_ascii "lives" "9" two_started H).
Defined.

(** * Further properties of [BombParty] *)

(** ** Joining and leaving *)

Lemma party_get_app (u : string) (p q : list (string * player)) :
  party_get u (p ++ q)
  = match party_get u p with Some v => Some v | None => party_get u q end.
Proof.
  induction p as [|[k v] p IH]; cbn; [now destruct (party_get u q)|].
  destruct (String.eqb k u); [reflexivity | exact IH].
Qed.

Lemma party_has_false (u : string) (p : list (string * player)) :
  party_has u p = false <-> u ∉ party_keys p.
Proof.
  rewrite <- party_get_keys. destruct (party_has u p); split; congruence.
Qed.

Lemma party_del_absent (u : string) (p : list (string * player)) :
  u ∉ party_keys p -> party_del u p = p.
Proof.
  unfold party_del, party_keys. induction p as [|[k v] p IH]; cbn; [reflexivity|].
  intros Hnin. destruct (String.eqb_spec k u) as [->|Hne]; cbn.
  - exfalso. apply Hnin. apply list_elem_of_here.
  - f_equal. apply IH. intros Hin. apply Hnin. now apply list_elem_of_further.
Qed.

Lemma party_get_del (u u' : string) (p : list (string * player)) :
  party_get u' (party_del u p) = if String.eqb u' u then None else party_get u' p.
Proof.
  unfold party_del. induction p as [|[k v] p IH]; cbn.
  - now destruct (String.eqb u' u).
  - destruct (String.eqb_spec k u) as [->|Hku]; cbn.
    + rewrite IH. destruct (String.eqb_spec u' u) as [->|Hne]; [reflexivity|].
      destruct (String.eqb_spec u u'); [congruence | reflexivity].
    + rewrite IH. destruct (String.eqb_spec k u') as [->|Hku'].
      * destruct (String.eqb_spec u' u); [congruence | reflexivity].
      * reflexivity.
Qed.

Lemma add_player_new (u : string) (s : BombParty.t) :
  party_has u (party s) = false ->
  party (add_player u s)
  = party s ++ [(u, BombPartyPlayer.mk u (Settings.lives (bomb_settings s)))].
Proof. intros H. unfold add_player. now rewrite H. Qed.

Lemma add_player_old (u : string) (s : BombParty.t) :
  party_has u (party s) = true -> add_player u s = s.
Proof. intros H. unfold add_player. now rewrite H. Qed.

Lemma add_player_has (u : string) (s : BombParty.t) :
  party_has u (party (add_player u s)) = true.
Proof.
  destruct (party_has u (party s)) eqn:H; [now rewrite add_player_old|].
  rewrite (add_player_new u s H). unfold party_has in *. rewrite party_get_app.
  destruct (party_get u (party s)); [discriminate|]. cbn. now rewrite String.eqb_refl.
Qed.

(** X1.  A user who joins is in the party afterwards.  A new user is put
    last, with as many lives as the [lives] setting says; a user who is
    in the party already changes nothing, so joining twice is joining
    once.  No other user is touched. *)
Theorem add_player_spec (u : string) (s : BombParty.t) :
  (party_has u (party s) = false ->
   party (add_player u s)
   = party s ++ [(u, BombPartyPlayer.mk u (Settings.lives (bomb_settings s)))]
   /\ party_get u (party (add_player u s))
      = Some (BombPartyPlayer.mk u (Settings.lives (bomb_settings s))))
  /\ (party_has u (party s) = true -> add_player u s = s)
  /\ party_has u (party (add_player u s)) = true
  /\ add_player u (add_player u s) = add_player u s
  /\ (forall u', u' <> u ->
        party_get u' (party (add_player u s)) = party_get u' (party s)).
Proof.
  split.
  { intros H. split; [now apply add_player_new|]. rewrite (add_player_new u s H), party_get_app.
    unfold party_has in H. destruct (party_get u (party s)); [discriminate|].
    cbn. now rewrite String.eqb_refl. }
  split; [apply add_player_old|]. split; [apply add_player_has|]. split.
  { apply add_player_old, add_player_has. }
  intros u' Hne. destruct (party_has u (party s)) eqn:H; [now rewrite add_player_old|].
  rewrite (add_player_new u s H), party_get_app.
  destruct (party_get u' (party s)); [reflexivity|]. cbn.
  destruct (String.eqb_spec u u'); [congruence | reflexivity].
Qed.

(** X2.  Before the start, a user who joins and leaves again leaves the
    game exactly as it was. *)
Theorem add_then_remove_in_lobby (u : string) (s : BombParty.t) :
  started s = false -> party_has u (party s) = false ->
  remove_player u (add_player u s) = s.
Proof.
  intros Hst Hnew.
  pose proof (add_player_new u s Hnew) as Hparty.
  pose proof (add_player_has u s) as Hhas.
  unfold remove_player. rewrite Hhas.
  assert (Hst' : started (add_player u s) = false).
  { unfold add_player. now destruct (negb _). }
  rewrite Hst', Hparty. unfold party_del. rewrite List.filter_app. cbn.
  rewrite String.eqb_refl. cbn. rewrite app_nil_r.
  fold (party_del u (party s)). rewrite party_del_absent by now apply party_has_false.
  unfold add_player. rewrite Hnew. cbn. now destruct s.
Qed.

Lemma add_then_remove_in_lobby_witness :
  remove_player "c" (add_player "c" (add_player "a" (init []))) = add_player "a" (init []).
Proof. apply add_then_remove_in_lobby; reflexivity. Defined.

(** X3.  Before the start, a user who leaves is no longer in the party,
    and every other user is stored as before. *)
Theorem remove_player_in_lobby (u : string) (s : BombParty.t) :
  started s = false ->
  party_get u (party (remove_player u s)) = None
  /\ party_has u (party (remove_player u s)) = false
  /\ (forall u', u' <> u ->
        party_get u' (party (remove_player u s)) = party_get u' (party s))
  /\ (length (party (remove_player u s)) <= length (party s))%nat.
Proof.
  intros Hst.
  assert (Hget : forall u', party_get u' (party (remove_player u s))
                   = if String.eqb u' u then None else party_get u' (party s)).
  { intros u'. unfold remove_player, party_has.
    destruct (party_get u (party s)) eqn:Hu; rewrite ?Hst; cbn.
    - apply party_get_del.
    - destruct (String.eqb_spec u' u) as [->|]; [exact Hu | reflexivity]. }
  split; [now rewrite Hget, String.eqb_refl|].
  split; [unfold party_has; now rewrite Hget, String.eqb_refl|].
  split.
  - intros u' Hne. rewrite Hget. destruct (String.eqb_spec u' u); [congruence | reflexivity].
  - unfold remove_player. destruct (party_has u (party s)); [|lia].
    rewrite Hst. cbn. unfold party_del. apply List.filter_length_le.
Qed.

Lemma remove_player_in_lobby_witness :
  party_get "a" (party (remove_player "a" (add_player "b" (add_player "a" (init []))))) = None.
Proof. apply remove_player_in_lobby. reflexivity. Defined.

(** ** Explosions *)



(** X5.  Without a turn order, so before any start, [on_explode] raises
    [AttributeError], and by then it has already put the countdown back
    at the [timer] setting and the start time at 0; the party is as it
    was. *)
Theorem on_explode_without_order (s : BombParty.t) :
  turn_order s = [] ->
  on_explode s
  = Raise AttributeError
      (set_bomb_start_time 0%Q (set_timer (inject_Z (Settings.timer (bomb_settings s))) s)).
Proof.
  intros H. unfold on_explode, current_player, current_key. cbn. now rewrite H.
Qed.

Lemma on_explode_without_order_witness :
  on_explode (set_timer 12%Q (init []))
  = Raise AttributeError (set_bomb_start_time 0%Q (set_timer 30%Q (init []))).
Proof. apply (on_explode_without_order (set_timer 12%Q (init [])) eq_refl). Defined.

(** ** The current player *)

Lemma current_player_lt (s : BombParty.t) (p : player) :
  current_player s = Val (Some p) ->
  (current_player_index s < length (turn_order s))%nat.
Proof. intros H. exact (player_at_lt s _ p (current_player_Some s p H)). Qed.

Lemma succ_index_lt (s : BombParty.t) :
  (current_player_index s < length (turn_order s))%nat ->
  (succ_index s < length (turn_order s))%nat.
Proof.
  intros H. unfold succ_index.
  destruct (Z.eqb_spec (Z.of_nat (current_player_index s))
              (Z.of_nat (length (turn_order s)) - 1)); lia.
Qed.

(** The loop of [next_player] leaves the index where it was or at a
    position of the turn order. *)
Lemma next_player_loop_index (fuel : nat) (who : string) (s s' : BombParty.t) :
  final (next_player_loop fuel who s) = Some s' ->
  current_player_index s' = current_player_index s
  \/ (current_player_index s' < length (turn_order s))%nat.
Proof.
  revert s. induction fuel as [|fuel IH]; intros s; cbn; [discriminate|].
  destruct (current_player s) as [[p|]|e] eqn:Hp; try (intros [= <-]; now left).
  destruct (_ || _); [|intros [= <-]; now left].
  intros H. apply IH in H. cbn in H. right.
  pose proof (succ_index_lt s (current_player_lt s p Hp)). destruct H; lia.
Qed.

Section MoreInvariants.

Variable py_int : string -> option Z.
Variable py_lower : string -> string.

(** The index is 0 or a position of the turn order. *)
Lemma index_in_range_step (fuel : nat) (c : call) (s s' : BombParty.t) :
  consistent s ->
  (current_player_index s = 0%nat
   \/ (current_player_index s < length (turn_order s))%nat) ->
  exec py_int py_lower fuel c s = Some s' ->
  current_player_index s' = 0%nat
  \/ (current_player_index s' < length (turn_order s'))%nat.
Proof.
  intros Hc Hi.
  destruct c as [u|u| |rand now|m now| | |now|rand|n v|m]; cbn [exec].
  - intros [= <-]. unfold add_player. now destruct (negb _).
  - intros [= <-]. unfold remove_player. now repeat case_match.
  - now intros [= <-].
  - intros He. destruct (started s) eqn:Hst.
    + assert (Hne : OnStart rand now <> OnClose) by discriminate.
      destruct (started_step py_int py_lower fuel (OnStart rand now) s s' Hc Hst Hne He)
        as (_ & _ & _ & _ & Hlen).
      injection He as <-. cbn [current_player_index on_start set_started set_bomb_start_time
        set_timer set_turn_order] in *. lia.
    + injection He as <-. left. cbn. now destruct (lobby_no_order s Hc Hst).
  - now intros [= <-].
  - intros H. apply on_explode_frame in H as (t & t' & pty & -> & _). exact Hi.
  - intros [= <-]. now left.
  - unfold next_player.
    destruct (current_player s) as [[p|]|e] eqn:Hp; try (intros [= <-]; exact Hi).
    destruct (next_player_loop fuel (BombPartyPlayer.user p) s) as [[] s1|e s1|] eqn:Hloop;
      cbn; [| |discriminate].
    + intros [= <-].
      assert (H : final (next_player_loop fuel (BombPartyPlayer.user p) s) = Some s1)
        by now rewrite Hloop.
      pose proof (next_player_loop_index _ _ _ _ H) as Hidx.
      apply next_player_loop_frame in H as [i ->]. cbn in *. destruct Hidx; [lia | now right].
    + intros [= <-].
      assert (H : final (next_player_loop fuel (BombPartyPlayer.user p) s) = Some s1)
        by now rewrite Hloop.
      pose proof (next_player_loop_index _ _ _ _ H) as Hidx.
      apply next_player_loop_frame in H as [i ->]. cbn in *. destruct Hidx; [lia | now right].
  - intros H. apply set_letters_frame in H as [f ->]. exact Hi.
  - intros [= <-].
    destruct (set_setting_frame py_int n v s)
      as [-> | (k & w & Hv & [[Hk ->] | (z & Hz & ->)])]; exact Hi.
  - intros [= <-]. now rewrite check_message_state.
Qed.

(** X6.  In every state that calls reach from a new game, reading
    [current_player] raises nothing: it is [None] exactly when the turn
    order is empty, and otherwise it is a player of the party, stored
    under the entry of the turn order at the current index. *)
Theorem current_player_never_raises (letters : list (string * list string))
    (fuel : nat) (cs : list call) (s : BombParty.t) :
  run py_int py_lower any_call fuel cs (init letters) = Some s ->
  (turn_order s = [] /\ current_player s = Val None)
  \/ (exists u p,
        turn_order s !! current_player_index s = Some u
        /\ party_get u (party s) = Some p
        /\ current_player s = Val (Some p)).
Proof.
  intros Hrun.
  assert (Hinv : consistent s
                 /\ (current_player_index s = 0%nat
                     \/ (current_player_index s < length (turn_order s))%nat)).
  { revert Hrun.
    apply (run_invariant py_int py_lower
             (fun s => consistent s
                       /\ (current_player_index s = 0%nat
                           \/ (current_player_index s < length (turn_order s))%nat))
             any_call).
    - intros f c s1 s2 [Hc Hi] _ He. split.
      + now apply (consistent_step py_int py_lower f c s1).
      + now apply (index_in_range_step f c s1).
    - split; [apply consistent_init | now left]. }
  destruct Hinv as [Hc Hi].
  unfold current_player, current_key.
  destruct (turn_order s) as [|u0 order] eqn:Hto; [left; split; reflexivity|].
  right. cbn [length Nat.eqb].
  assert (Hlt : (current_player_index s < length (u0 :: order))%nat)
    by (destruct Hi; [cbn; lia | assumption]).
  destruct (lookup_lt_is_Some_2 _ _ Hlt) as [u Hu]. rewrite Hu.
  assert (Hin : u ∈ party_keys (party s)).
  { apply (order_in_party s Hc). rewrite Hto. eapply list_elem_of_lookup_2; eauto. }
  apply party_get_keys in Hin. unfold party_has in Hin.
  destruct (party_get u (party s)) as [p|] eqn:Hg; [|discriminate].
  exists u, p. auto.
Qed.

End MoreInvariants.

Lemma current_player_never_raises_witness :
  exists s,
    run Py.int_ascii Py.ascii_fold any_call 3 round_with_leaver (init []) = Some s
    /\ ((turn_order s = [] /\ current_player s = Val None)
        \/ (exists u p,
              turn_order s !! current_player_index s = Some u
              /\ party_get u (party s) = Some p
              /\ current_player s = Val (Some p))).
Proof.
  eexists. split; [vm_compute; reflexivity|].
  apply (current_player_never_raises Py.int_ascii Py.ascii_fold [] 3 round_with_leaver).
  vm_compute. reflexivity.
Defined.

(** ** The turn order between starts *)

(** X7.  A call other than [on_start] and [on_close] leaves the turn
    order and the [started] flag as they are: once set, the order is not
    shuffled again, shortened or extended by what happens in the game. *)
Theorem turn_order_frozen (py_int : string -> option Z) (py_lower : string -> string)
    (fuel : nat) (c : call)
    (s s' : BombParty.t) :
  (forall rand now, c <> OnStart rand now) -> c <> OnClose ->
  exec py_int py_lower fuel c s = Some s' ->
  turn_order s' = turn_order s /\ started s' = started s.
Proof.
  intros Hns Hnc.
  destruct c as [u|u| |rand now|m now| | |now|rand|n v|m]; cbn [exec].
  - intros [= <-]. unfold add_player. now destruct (negb _).
  - intros [= <-]. unfold remove_player. now repeat case_match.
  - now intros [= <-].
  - now specialize (Hns rand now).
  - now intros [= <-].
  - intros H. now apply on_explode_frame in H as (t & t' & pty & -> & _).
  - congruence.
  - intros H. now apply next_player_frame in H as (i & t & ->).
  - intros H. now apply set_letters_frame in H as [f ->].
  - intros [= <-].
    now destruct (set_setting_frame py_int n v s)
      as [-> | (k & w & Hv & [[Hk ->] | (z & Hz & ->)])].
  - intros [= <-]. now rewrite check_message_state.
Qed.

Lemma turn_order_frozen_witness :
  exists s',
    exec Py.int_ascii Py.ascii_fold 2 (NextPlayer 1%Q) two_started = Some s'
    /\ turn_order s' = ["a"; "b"].
Proof.
  eexists. split; [vm_compute; reflexivity|].
  eapply proj1.
  apply (turn_order_frozen Py.int_ascii Py.ascii_fold 2 (NextPlayer 1%Q) two_started);
    [discriminate | discriminate | vm_compute; reflexivity].
Defined.

(** ** Settings stay in their domains *)

Section SettingsValid.

Variable py_int : string -> option Z.
Variable py_lower : string -> string.

Lemma settings_valid_step (fuel : nat) (c : call) (s s' : BombParty.t) :
  settings_valid s -> exec py_int py_lower fuel c s = Some s' -> settings_valid s'.
Proof.
  intros Hv. unfold settings_valid in *.
  destruct c as [u|u| |rand now|m now| | |now|rand|n v|m]; cbn [exec].
  - intros [= <-]. unfold add_player. now destruct (negb _).
  - intros [= <-]. unfold remove_player. now repeat case_match.
  - now intros [= <-].
  - now intros [= <-].
  - now intros [= <-].
  - intros H. now apply on_explode_frame in H as (t & t' & pty & -> & _).
  - intros [= <-]. cbn. repeat split.
  - intros H. now apply next_player_frame in H as (i & t & ->).
  - intros H. now apply set_letters_frame in H as [f ->].
  - intros [= <-].
    destruct (set_setting_frame py_int n v s)
      as [-> | (k & w & Hw & [[Hk ->] | (z & Hz & ->)])]; [exact Hv| |].
    + destruct Hv as (H1 & H2 & H3 & H4). destruct k; cbn in *; auto; congruence.
    + destruct Hv as (H1 & H2 & H3 & H4). cbn. repeat split; auto.
      unfold Settings.in_range. apply andb_true_iff. split; [apply Z.leb_le | apply Z.ltb_lt]; lia.
  - intros [= <-]. now rewrite check_message_state.
Qed.

Lemma letters_step (fuel : nat) (c : call) (s s' : BombParty.t) :
  exec py_int py_lower fuel c s = Some s' -> bomb_party_letters s' = bomb_party_letters s.
Proof.
  destruct c as [u|u| |rand now|m now| | |now|rand|n v|m]; cbn [exec].
  - intros [= <-]. unfold add_player. now destruct (negb _).
  - intros [= <-]. unfold remove_player. now repeat case_match.
  - now intros [= <-].
  - now intros [= <-].
  - now intros [= <-].
  - intros H. now apply on_explode_frame in H as (t & t' & pty & -> & _).
  - now intros [= <-].
  - intros H. now apply next_player_frame in H as (i & t & ->).
  - intros H. now apply set_letters_frame in H as [f ->].
  - intros [= <-].
    now destruct (set_setting_frame py_int n v s)
      as [-> | (k & w & Hw & [[Hk ->] | (z & Hz & ->)])].
  - intros [= <-]. now rewrite check_message_state.
Qed.

Lemma settings_valid_run (letters : list (string * list string)) (fuel : nat)
    (cs : list call) (s : BombParty.t) :
  run py_int py_lower any_call fuel cs (init letters) = Some s ->
  settings_valid s /\ bomb_party_letters s = letters.
Proof.
  apply (run_invariant py_int py_lower
           (fun s => settings_valid s /\ bomb_party_letters s = letters) any_call).
  - intros f c s1 s2 [Hv Hl] _ He. split.
    + now apply (settings_valid_step f c s1).
    + now rewrite (letters_step f c s1 s2 He).
  - split; [repeat split | reflexivity].
Qed.

(** X8.  In every state that calls reach from a new game, whatever
    names and values were given to [set_setting], each setting is in its
    domain: the difficulty is one of the five names, the timer is
    between 5 and 60, the minimum time between 0 and 10, the lives
    between 1 and 5. *)
Theorem settings_stay_valid (letters : list (string * list string)) (fuel : nat)
    (cs : list call) (s : BombParty.t) :
  run py_int py_lower any_call fuel cs (init letters) = Some s ->
  Settings.difficulty (bomb_settings s) ∈ ["easy"; "medium"; "hard"; "nightmare"; "impossible"]
  /\ 5 <= Settings.timer (bomb_settings s) <= 60
  /\ 0 <= Settings.minimum_time (bomb_settings s) <= 10
  /\ 1 <= Settings.lives (bomb_settings s) <= 5.
Proof.
  intros Hrun. destruct (settings_valid_run _ _ _ _ Hrun) as [(H1 & H2 & H3 & H4) _].
  cbn in H1, H2, H3, H4. unfold Settings.in_range in *.
  apply bool_decide_eq_true_1 in H1.
  apply andb_true_iff in H2 as [H2 H2'], H3 as [H3 H3'], H4 as [H4 H4'].
  apply Z.leb_le in H2, H3, H4. apply Z.ltb_lt in H2', H3', H4'.
  split; [exact H1|]. lia.
Qed.

End SettingsValid.

Lemma settings_stay_valid_witness :
  exists s,
    run Py.int_ascii Py.ascii_fold any_call 0
      [SetSetting "timer" "61"; SetSetting "timer" " 45 "; SetSetting "lives" "0";
       SetSetting "difficulty" "Hard"; SetSetting "difficulty" "hard"] (init [])
    = Some s
    /\ bomb_settings s = Settings.mk "hard" 45 5 3
    /\ 5 <= Settings.timer (bomb_settings s) <= 60.
Proof.
  eexists. split; [vm_compute; reflexivity|]. split; [reflexivity|].
  eapply proj1, proj2.
  apply (settings_stay_valid Py.int_ascii Py.ascii_fold [] 0
           [SetSetting "timer" "61"; SetSetting "timer" " 45 "; SetSetting "lives" "0";
            SetSetting "difficulty" "Hard"; SetSetting "difficulty" "hard"]).
  vm_compute. reflexivity.
Defined.

(** ** Choosing the letters *)

Lemma choice_elem {A} (rand : Random.source) (seq : list A) :
  seq <> [] -> exists x, Random.choice rand seq = Some x /\ x ∈ seq.
Proof.
  intros Hne. unfold Random.choice, Random.randbelow.
  destruct seq as [|a seq]; [congruence|].
  assert (Hlt : (rand (length (a :: seq)) mod length (a :: seq) < length (a :: seq))%nat)
    by (apply Nat.mod_upper_bound; cbn; lia).
  destruct (lookup_lt_is_Some_2 _ _ Hlt) as [x Hx].
  exists x. split; [exact Hx | eapply list_elem_of_lookup_2; eauto].
Qed.

(** X9.  [set_letters] looks up the pool of the configured difficulty.
    If the pool has a string it returns, the current letters are a string
    of that pool and nothing else has changed.  It raises [IndexError]
    on an empty pool and [KeyError] when the difficulty has no pool, and
    then changes nothing. *)
Theorem set_letters_spec (rand : Random.source) (s : BombParty.t) :
  (forall pool,
     letters_get (Settings.difficulty (bomb_settings s)) (bomb_party_letters s) = Some pool ->
     pool <> [] ->
     exists f, f ∈ pool /\ set_letters rand s = Ok tt (set_current_letters f s))
  /\ (letters_get (Settings.difficulty (bomb_settings s)) (bomb_party_letters s) = Some [] ->
      set_letters rand s = Raise IndexError s)
  /\ (letters_get (Settings.difficulty (bomb_settings s)) (bomb_party_letters s) = None ->
      set_letters rand s = Raise KeyError s).
Proof.
  unfold set_letters. split; [|split].
  - intros pool Hpool Hne. rewrite Hpool.
    destruct (choice_elem rand pool Hne) as (f & Hf & Hin). rewrite Hf. eauto.
  - intros ->. reflexivity.
  - intros ->. reflexivity.
Qed.

(** ** The letter pools *)

Lemma dict_set_keys_in (k : string) (v : Z) (d : list (string * Z)) (x : string) :
  x ∈ (dict_set k v d).*1 <-> x = k \/ x ∈ d.*1.
Proof.
  induction d as [|[k' v'] d IH]; cbn.
  - rewrite list_elem_of_singleton. split; [auto | intros [H|H]; [exact H | inversion H]].
  - destruct (String.eqb_spec k' k) as [->|Hne]; cbn; rewrite !elem_of_cons.
    + tauto.
    + rewrite IH. tauto.
Qed.

Lemma dict_set_nodup (k : string) (v : Z) (d : list (string * Z)) :
  NoDup d.*1 -> NoDup (dict_set k v d).*1.
Proof.
  induction d as [|[k' v'] d IH]; cbn; intros Hnd.
  - apply NoDup_singleton.
  - apply NoDup_cons in Hnd as [Hk' Hnd].
    destruct (String.eqb_spec k' k) as [->|Hne]; cbn.
    + now apply NoDup_cons.
    + apply NoDup_cons. split; [|now apply IH].
      rewrite dict_set_keys_in. intros [H|H]; congruence.
Qed.

Lemma dict_update_nodup (d d2 : list (string * Z)) :
  NoDup d.*1 -> NoDup (dict_update d d2).*1.
Proof.
  unfold dict_update. revert d. induction d2 as [|[k v] d2 IH]; intros d Hnd; cbn; [exact Hnd|].
  apply IH. now apply dict_set_nodup.
Qed.

Lemma letters_where_elem (test : string -> Z -> bool) (letters : list (string * Z)) (l : string) :
  l ∈ letters_where test letters <-> exists a, (l, a) ∈ letters /\ test l a = true.
Proof.
  unfold letters_where. rewrite list_elem_of_fmap. split.
  - intros ([l' a] & -> & Hin). apply list_elem_of_In, List.filter_In in Hin as [Hin Ht].
    exists a. split; [now apply list_elem_of_In | exact Ht].
  - intros (a & Hin & Ht). exists (l, a). split; [reflexivity|].
    apply list_elem_of_In, List.filter_In. split; [now apply list_elem_of_In | exact Ht].
Qed.

Lemma nodup_keys_value {A} (d : list (string * A)) (k : string) (a b : A) :
  NoDup d.*1 -> (k, a) ∈ d -> (k, b) ∈ d -> a = b.
Proof.
  induction d as [|[k' v'] d IH]; cbn; intros Hnd Ha Hb; [inversion Ha|].
  apply NoDup_cons in Hnd as [Hk' Hnd].
  apply elem_of_cons in Ha as [Ha|Ha], Hb as [Hb|Hb].
  - congruence.
  - injection Ha as -> ->. exfalso. apply Hk'. apply list_elem_of_fmap. now exists (k', b).
  - injection Hb as -> ->. exfalso. apply Hk'. apply list_elem_of_fmap. now exists (k', a).
  - now apply IH.
Qed.

Lemma letters_where_unique (test : string -> Z -> bool) (letters : list (string * Z))
    (l : string) (a : Z) :
  NoDup letters.*1 -> (l, a) ∈ letters ->
  (l ∈ letters_where test letters <-> test l a = true).
Proof.
  intros Hnd Hin. rewrite letters_where_elem. split.
  - intros (b & Hb & Ht). now rewrite (nodup_keys_value _ l a b Hnd Hin Hb).
  - intros Ht. now exists a.
Qed.

Local Ltac decide_counts :=
  rewrite ?Z.geb_leb, ?Z.gtb_ltb;
  repeat match goal with
         | |- context [(?x <=? ?y)] => destruct (Z.leb_spec x y)
         | |- context [(?x <? ?y)] => destruct (Z.ltb_spec x y)
         end;
  cbn; split; intros; try reflexivity; try discriminate; try lia.

(** The pool a string with a count belongs to. *)
Lemma pool_of_letters (l : string) (a : Z) :
  exists d,
    d ∈ ["easy"; "medium"; "hard"; "nightmare"; "impossible"]
    /\ forall two three,
         NoDup (dict_update two three).*1 ->
         (l, a) ∈ dict_update two three ->
         forall d' pool,
           letters_get d' (construct_bomb_party_letters two three) = Some pool ->
           (l ∈ pool <-> d' = d).
Proof.
  set (dash := Py.contains "-" l).
  exists (if (a >=? 10000) && negb dash then "easy"
          else if ((10000 >? a) && (a >=? 5000)) && negb dash then "medium"
          else if ((5000 >? a) && (a >=? 1000)) || ((a >=? 5000) && dash) then "hard"
          else if (1000 >? a) && (a >=? 500) then "nightmare"
          else "impossible").
  split.
  { repeat case_match; apply list_elem_of_In; cbn; auto 6. }
  intros two three Hnd Hin d' pool Hget.
  unfold construct_bomb_party_letters in Hget. cbn [letters_get] in Hget.
  destruct (String.eqb_spec "easy" d') as [<-|?].
  { injection Hget as <-. rewrite (letters_where_unique _ _ l a Hnd Hin). fold dash.
    destruct dash; decide_counts. }
  destruct (String.eqb_spec "medium" d') as [<-|?].
  { injection Hget as <-. rewrite (letters_where_unique _ _ l a Hnd Hin). fold dash.
    destruct dash; decide_counts. }
  destruct (String.eqb_spec "hard" d') as [<-|?].
  { injection Hget as <-. rewrite (letters_where_unique _ _ l a Hnd Hin). fold dash.
    destruct dash; decide_counts. }
  destruct (String.eqb_spec "nightmare" d') as [<-|?].
  { injection Hget as <-. rewrite (letters_where_unique _ _ l a Hnd Hin). fold dash.
    destruct dash; decide_counts. }
  destruct (String.eqb_spec "impossible" d') as [<-|?].
  { injection Hget as <-. rewrite (letters_where_unique _ _ l a Hnd Hin). fold dash.
    destruct dash; decide_counts. }
  discriminate Hget.
Qed.

Lemma construct_has_pool (two three : list (string * Z)) (d : string) :
  d ∈ ["easy"; "medium"; "hard"; "nightmare"; "impossible"] ->
  exists pool, letters_get d (construct_bomb_party_letters two three) = Some pool.
Proof.
  intros Hd. apply list_elem_of_In in Hd. cbn in Hd.
  destruct Hd as [<- | [<- | [<- | [<- | [<- | []]]]]]; eexists; reflexivity.
Qed.

Lemma construct_pool_keys (two three : list (string * Z)) (d l : string) (pool : list string) :
  letters_get d (construct_bomb_party_letters two three) = Some pool ->
  l ∈ pool -> exists a, (l, a) ∈ dict_update two three.
Proof.
  unfold construct_bomb_party_letters. cbn [letters_get]. intros Hget Hin.
  repeat (destruct (String.eqb _ d);
          [injection Hget as <-; apply letters_where_elem in Hin as (a & Ha & _); eauto|]).
  discriminate Hget.
Qed.

(** X10.  The five pools split the strings of the two tables: when the
    keys of the first table are distinct, every string of the merged
    table is in the pool of exactly one difficulty, each of the five
    difficulties has a pool, and a pool holds only strings of the merged
    table. *)
Theorem letter_pools_partition (two three : list (string * Z)) :
  NoDup two.*1 ->
  (forall l a, (l, a) ∈ dict_update two three ->
     exists d pool,
       d ∈ ["easy"; "medium"; "hard"; "nightmare"; "impossible"]
       /\ letters_get d (construct_bomb_party_letters two three) = Some pool
       /\ l ∈ pool
       /\ forall d' pool',
            letters_get d' (construct_bomb_party_letters two three) = Some pool' ->
            l ∈ pool' -> d' = d)
  /\ (forall d, d ∈ ["easy"; "medium"; "hard"; "nightmare"; "impossible"] ->
        exists pool, letters_get d (construct_bomb_party_letters two three) = Some pool)
  /\ (forall d pool l,
        letters_get d (construct_bomb_party_letters two three) = Some pool ->
        l ∈ pool -> exists a, (l, a) ∈ dict_update two three).
Proof.
  intros Hnd. pose proof (dict_update_nodup two three Hnd) as Hnd'.
  split; [|split].
  - intros l a Hin. destruct (pool_of_letters l a) as (d & Hd & Hiff).
    destruct (construct_has_pool two three d Hd) as [pool Hpool].
    exists d, pool. split; [exact Hd|]. split; [exact Hpool|]. split.
    + now apply (Hiff two three Hnd' Hin d pool Hpool).
    + intros d' pool' Hget Hl. now apply (Hiff two three Hnd' Hin d' pool' Hget).
  - apply construct_has_pool.
  - intros d pool l. apply construct_pool_keys.
Qed.

Lemma letter_pools_partition_witness :
  construct_bomb_party_letters
    [("ab", 12000); ("a-b", 12000); ("cd", 700)] [("cd", 7000); ("xyz", 3)]
  = [("easy", ["ab"]); ("medium", ["cd"]); ("hard", ["a-b"]); ("nightmare", []);
     ("impossible", ["xyz"])]
  /\ exists pool,
       letters_get "hard"
         (construct_bomb_party_letters
            [("ab", 12000); ("a-b", 12000); ("cd", 700)] [("cd", 7000); ("xyz", 3)])
       = Some pool.
Proof.
  split; [reflexivity|].
  assert (Hnd : NoDup [("ab", 12000); ("a-b", 12000); ("cd", 700)].*1).
  { cbn. repeat (apply NoDup_cons; split; [intros H; apply list_elem_of_In in H; cbn in H;
      intuition discriminate|]). apply NoDup_nil_2. }
  apply (proj1 (proj2 (letter_pools_partition _ [("cd", 7000); ("xyz", 3)] Hnd))).
  apply list_elem_of_In. cbn. auto.
Defined.

Lemma dict_set_elem_eq (k : string) (v : Z) (d : list (string * Z)) :
  (k, v) ∈ dict_set k v d.
Proof.
  induction d as [|[k' v'] d IH]; cbn; [apply list_elem_of_here|].
  destruct (String.eqb_spec k' k) as [->|Hne];
    [apply list_elem_of_here | now apply list_elem_of_further].
Qed.

Lemma dict_set_elem_ne (k k' : string) (v v' : Z) (d : list (string * Z)) :
  k' <> k -> (k', v') ∈ d -> (k', v') ∈ dict_set k v d.
Proof.
  intros Hne. induction d as [|[k0 v0] d IH]; cbn; intros Hin; [inversion Hin|].
  apply elem_of_cons in Hin as [Hin|Hin].
  - injection Hin as <- <-. destruct (String.eqb_spec k' k); [congruence|].
    apply list_elem_of_here.
  - destruct (String.eqb k0 k); apply list_elem_of_further; auto.
Qed.

Lemma dict_update_keeps (d d2 : list (string * Z)) (k : string) (v : Z) :
  k ∉ d2.*1 -> (k, v) ∈ d -> (k, v) ∈ dict_update d d2.
Proof.
  unfold dict_update. revert d. induction d2 as [|[k2 v2] d2 IH]; intros d Hk Hin; cbn; [exact Hin|].
  cbn in Hk. apply not_elem_of_cons in Hk as [Hne Hk].
  apply IH; [exact Hk|]. now apply dict_set_elem_ne.
Qed.

Lemma dict_set_elem (k k' : string) (v v' : Z) (d : list (string * Z)) :
  NoDup d.*1 ->
  (k', v') ∈ dict_set k v d <-> (k' = k /\ v' = v) \/ (k' <> k /\ (k', v') ∈ d).
Proof.
  intros Hnd. split.
  - induction d as [|[k0 v0] d IH]; cbn.
    + intros H. apply list_elem_of_singleton in H. injection H as -> ->. now left.
    + cbn in Hnd. apply NoDup_cons in Hnd as [Hk0 Hnd].
      destruct (String.eqb_spec k0 k) as [->|Hne]; intros H;
        apply elem_of_cons in H as [H|H].
      * injection H as -> ->. now left.
      * right. split; [|now apply list_elem_of_further].
        intros ->. apply Hk0. apply list_elem_of_fmap. now exists (k, v').
      * injection H as -> ->. right. split; [exact Hne | apply list_elem_of_here].
      * destruct (IH Hnd H) as [Heq | [Hk Hin]]; [now left|].
        right. split; [exact Hk | now apply list_elem_of_further].
  - intros [[-> ->] | [Hne Hin]]; [apply dict_set_elem_eq | now apply dict_set_elem_ne].
Qed.

(** The keys after [d[k] = v]: a new key goes last, a key of the dict
    stays where it is. *)
Lemma dict_set_keys (k : string) (v : Z) (d : list (string * Z)) :
  (dict_set k v d).*1 = if bool_decide (k ∈ d.*1) then d.*1 else d.*1 ++ [k].
Proof.
  induction d as [|[k0 v0] d IH]; cbn; [reflexivity|].
  destruct (String.eqb_spec k0 k) as [->|Hne]; cbn.
  - rewrite bool_decide_eq_true_2 by apply list_elem_of_here. reflexivity.
  - rewrite IH. destruct (bool_decide (k ∈ d.*1)) eqn:Hd.
    + apply bool_decide_eq_true_1 in Hd.
      rewrite bool_decide_eq_true_2 by now apply list_elem_of_further. reflexivity.
    + apply bool_decide_eq_false_1 in Hd.
      rewrite bool_decide_eq_false_2; [reflexivity|].
      intros H. apply elem_of_cons in H as [H|H]; congruence.
Qed.

(** X11.  The table that [construct_bomb_party_letters] merges from two
    tables, each with distinct keys.  A string has a count in it exactly
    when the second table gives it that count, or the second table does
    not have the string and the first gives it that count: the second
    table overrides the first.  The merged table has no string twice, so
    no string has two counts.  Its strings are those of the first table,
    in their order, then those of the second that the first does not
    have, in their order. *)
Theorem dict_update_spec (d d2 : list (string * Z)) (k : string) (v : Z) :
  NoDup d.*1 -> NoDup d2.*1 ->
  ((k, v) ∈ dict_update d d2 <-> (k, v) ∈ d2 \/ ((k ∉ d2.*1) /\ (k, v) ∈ d))
  /\ NoDup (dict_update d d2).*1
  /\ (forall v', (k, v) ∈ dict_update d d2 -> (k, v') ∈ dict_update d d2 -> v = v')
  /\ (dict_update d d2).*1
     = d.*1 ++ List.filter (fun k' => negb (bool_decide (k' ∈ d.*1))) d2.*1.
Proof.
  intros Hd Hd2.
  assert (Hiff : (k, v) ∈ dict_update d d2 <-> (k, v) ∈ d2 \/ ((k ∉ d2.*1) /\ (k, v) ∈ d)).
  { unfold dict_update. revert d Hd.
    induction d2 as [|[k2 v2] d2 IH]; intros d Hd; cbn [List.fold_left fst snd].
    - split; [intros H; right; split; [inversion 1 | exact H] | intros [H | [_ H]]];
        [inversion H | exact H].
    - cbn in Hd2. apply NoDup_cons in Hd2 as [Hk2 Hd2].
      rewrite (IH Hd2 _ (dict_set_nodup k2 v2 d Hd)), (dict_set_elem k2 k v2 v d Hd).
      cbn [fmap list_fmap fst]. rewrite elem_of_cons, not_elem_of_cons. split.
      + intros [H | [Hk [[-> ->] | [Hne H]]]]; [left; now right | left; now left | right; auto].
      + intros [[H | H] | [[Hne Hk] H]].
        * injection H as -> ->. right. split; [exact Hk2 | now left].
        * now left.
        * right. split; [exact Hk | right; auto]. }
  assert (Hnd : NoDup (dict_update d d2).*1) by now apply dict_update_nodup.
  split; [exact Hiff|]. split; [exact Hnd|]. split.
  - intros v' H1 H2. exact (nodup_keys_value _ k v v' Hnd H1 H2).
  - clear Hiff Hnd k v. unfold dict_update. revert d Hd.
    induction d2 as [|[k2 v2] d2 IH]; intros d Hd; cbn [List.fold_left fst snd].
    + cbn. now rewrite app_nil_r.
    + cbn in Hd2. apply NoDup_cons in Hd2 as [Hk2 Hd2].
      rewrite (IH Hd2 _ (dict_set_nodup k2 v2 d Hd)), dict_set_keys.
      cbn [fmap list_fmap fst List.filter].
      destruct (bool_decide (k2 ∈ d.*1)) eqn:Hin; cbn [negb]; [reflexivity|].
      rewrite <- app_assoc. cbn [app]. do 2 f_equal.
      apply List.filter_ext_in. intros x Hx. f_equal.
      apply bool_decide_ext. rewrite elem_of_app, list_elem_of_singleton.
      split; [intros [H|H]; [exact H|] | auto].
      subst x. exfalso. apply Hk2. now apply list_elem_of_In.
Qed.

Lemma dict_update_spec_witness :
  ("cd", 7) ∈ dict_update [("ab", 1); ("cd", 2)] [("cd", 7); ("abc", 3)]
  /\ (("cd", 2) ∉ dict_update [("ab", 1); ("cd", 2)] [("cd", 7); ("abc", 3)])
  /\ (dict_update [("ab", 1); ("cd", 2)] [("cd", 7); ("abc", 3)]).*1 = ["ab"; "cd"; "abc"].
Proof.
  assert (Hd : NoDup [("ab", 1); ("cd", 2)].*1)
    by (apply (bool_decide_unpack _); vm_compute; reflexivity).
  assert (Hd2 : NoDup [("cd", 7); ("abc", 3)].*1)
    by (apply (bool_decide_unpack _); vm_compute; reflexivity).
  destruct (dict_update_spec [("ab", 1); ("cd", 2)] [("cd", 7); ("abc", 3)] "cd" 7 Hd Hd2)
    as [H7 _].
  destruct (dict_update_spec [("ab", 1); ("cd", 2)] [("cd", 7); ("abc", 3)] "cd" 2 Hd Hd2)
    as [H2 _].
  split; [apply H7; left; apply list_elem_of_here|]. split; [|reflexivity].
  intros H. apply H2 in H. destruct H as [H | [H _]].
  - apply list_elem_of_In in H. cbn in H. intuition congruence.
  - apply H. apply list_elem_of_In. cbn. auto.
Defined.

(** X12.  In a game built on the pools of [construct_bomb_party_letters],
    after any calls, [set_letters] does not raise [KeyError]: it either
    sets the current letters to a string of the merged table, in the
    pool of the configured difficulty, or raises [IndexError] because
    that pool is empty; in both cases nothing else changes. *)
Theorem set_letters_on_constructed_pools (py_int : string -> option Z)
    (py_lower : string -> string)
    (two three : list (string * Z)) (fuel : nat) (cs : list call) (s : BombParty.t)
    (rand : Random.source) :
  run py_int py_lower any_call fuel cs (init (construct_bomb_party_letters two three)) = Some s ->
  exists pool,
    letters_get (Settings.difficulty (bomb_settings s))
                (construct_bomb_party_letters two three) = Some pool
    /\ ((pool = [] /\ set_letters rand s = Raise IndexError s)
        \/ (exists f a, f ∈ pool /\ (f, a) ∈ dict_update two three
              /\ set_letters rand s = Ok tt (set_current_letters f s))).
Proof.
  intros Hrun.
  destruct (settings_valid_run py_int py_lower _ _ _ _ Hrun) as [(Hd & _) Hl].
  cbn in Hd. apply bool_decide_eq_true_1 in Hd.
  destruct (construct_has_pool two three _ Hd) as [pool Hpool].
  exists pool. split; [exact Hpool|].
  unfold set_letters. rewrite Hl, Hpool.
  destruct pool as [|f0 pool]; [left; split; reflexivity|].
  right. destruct (choice_elem rand (f0 :: pool)) as (f & Hf & Hin); [discriminate|].
  destruct (construct_pool_keys two three _ f _ Hpool Hin) as [a Ha].
  exists f, a. rewrite Hf. auto.
Qed.

Lemma set_letters_on_constructed_pools_witness :
  exists s pool,
    run Py.int_ascii Py.ascii_fold any_call 0 [SetSetting "difficulty" "hard"]
      (init (construct_bomb_party_letters [("ab", 12000); ("a-b", 12000)] []))
    = Some s
    /\ letters_get (Settings.difficulty (bomb_settings s))
         (construct_bomb_party_letters [("ab", 12000); ("a-b", 12000)] [])
       = Some pool.
Proof.
  pose (s := (set_setting Py.int_ascii "difficulty" "hard"
                (init (construct_bomb_party_letters [("ab", 12000); ("a-b", 12000)] []))).2).
  assert (Hrun : run Py.int_ascii Py.ascii_fold any_call 0 [SetSetting "difficulty" "hard"]
                   (init (construct_bomb_party_letters [("ab", 12000); ("a-b", 12000)] []))
                 = Some s) by reflexivity.
  destruct (set_letters_on_constructed_pools Py.int_ascii Py.ascii_fold _ _ 0 _ s largest Hrun)
    as (pool & Hpool & _).
  exists s, pool. split; [exact Hrun | exact Hpool].
Defined.

(** ** Settings other than [lives] *)

(** X13.  Only the [lives] setting reaches the players: a call of
    [set_setting] with any other name leaves the party as it is.  And no
    call of [set_setting], whatever the name, touches the running
    countdown, the turn order, the index, the used words or the flags:
    a new [timer] or [minimum_time] counts from the next start or
    explosion. *)
Theorem set_setting_reach (py_int : string -> option Z) (setting value : string)
    (s : BombParty.t) :
  (setting <> "lives" -> party (set_setting py_int setting value s).2 = party s)
  /\ (timer (set_setting py_int setting value s).2,
      bomb_start_time (set_setting py_int setting value s).2,
      turn_order (set_setting py_int setting value s).2,
      current_player_index (set_setting py_int setting value s).2)
     = (timer s, bomb_start_time s, turn_order s, current_player_index s)
  /\ (used_words (set_setting py_int setting value s).2,
      current_letters (set_setting py_int setting value s).2,
      started (set_setting py_int setting value s).2,
      in_progress (set_setting py_int setting value s).2)
     = (used_words s, current_letters s, started s, in_progress s).
Proof.
  split.
  - intros Hne. unfold set_setting.
    destruct (Settings.key_of_string setting) as [k|] eqn:Hk; [|reflexivity].
    apply key_of_string_Some in Hk.
    destruct (coerce py_int k value) as [v|]; [|reflexivity].
    destruct (negb (Settings.valid k v)); [reflexivity|].
    destruct k; cbn in *; congruence.
  - destruct (set_setting_frame py_int setting value s)
      as [-> | (k & w & Hv & [[Hk ->] | (z & Hz & ->)])]; split; reflexivity.
Qed.

(** ** The winner is a living member *)

Lemma filter_singleton_inv {A} (f : A -> bool) (l : list A) (p : A) :
  List.filter f l = [p] ->
  exists i, l !! i = Some p /\ f p = true
    /\ forall j q, l !! j = Some q -> f q = true -> j = i.
Proof.
  induction l as [|x l IH]; cbn; [discriminate|].
  destruct (f x) eqn:Hx.
  - intros [= -> Hrest]. exists 0%nat. split; [reflexivity|]. split; [exact Hx|].
    intros [|j] q Hj Hq; [reflexivity|]. exfalso. cbn in Hj.
    assert (Hin : List.In q (List.filter f l)).
    { apply List.filter_In. split; [|exact Hq].
      apply list_elem_of_In. eapply list_elem_of_lookup_2; eauto. }
    now rewrite Hrest in Hin.
  - intros H. destruct (IH H) as (i & Hi & Hp & Huniq).
    exists (S i). split; [exact Hi|]. split; [exact Hp|].
    intros [|j] q Hj Hq; cbn in Hj.
    + injection Hj as ->. congruence.
    + f_equal. now apply (Huniq j q).
Qed.

(** X14.  A player that [get_winner] returns is a player of the party,
    has lives other than 0, and is the only such player: no second
    player with lives left is passed over. *)
Theorem get_winner_sound (s : BombParty.t) (p : player) :
  get_winner s = Some p ->
  exists i,
    party_values (party s) !! i = Some p
    /\ BombPartyPlayer.dead p = false
    /\ forall j q, party_values (party s) !! j = Some q ->
         BombPartyPlayer.dead q = false -> j = i.
Proof.
  unfold get_winner, BombPartyPlayer.dead.
  destruct (List.filter _ _) as [|p' [|? ?]] eqn:Hf; cbn; try discriminate.
  intros [= ->].
  destruct (filter_singleton_inv _ _ _ Hf) as (i & Hi & Hp & Huniq).
  exists i. split; [exact Hi|]. split; [now apply negb_true_iff in Hp|].
  intros j q Hj Hq. apply (Huniq j q Hj). now rewrite Hq.
Qed.

Lemma get_winner_sound_witness :
  exists i,
    party_values (party (remove_player "a" two_started)) !! i = Some (BombPartyPlayer.mk "b" 3)
    /\ BombPartyPlayer.dead (BombPartyPlayer.mk "b" 3) = false.
Proof.
  destruct (get_winner_sound (remove_player "a" two_started) (BombPartyPlayer.mk "b" 3) eq_refl)
    as (i & Hi & Hd & _).
  exists i. split; [exact Hi | exact Hd].
Defined.

(** ** The host *)

(** X15.  The host is the first key of the party.  An empty party has
    none ([IndexError]); the first user to join becomes host and stays
    host as others join; the host stays when another user leaves, and
    when anyone leaves a started game. *)
Theorem host_spec (u : string) (s : BombParty.t) :
  (party s = [] -> host s = None /\ host (add_player u s) = Some u)
  /\ (party s <> [] -> host (add_player u s) = host s)
  /\ (started s = true -> host (remove_player u s) = host s)
  /\ (forall h, host s = Some h -> h <> u -> host (remove_player u s) = Some h).
Proof.
  unfold host. split; [|split; [|split]].
  - intros H. unfold add_player, party_has. rewrite H. split; reflexivity.
  - intros H. unfold add_player. destruct (negb _); [|reflexivity].
    cbn -[party_keys]. destruct (party s) as [|[k v] p]; [congruence | reflexivity].
  - intros Hst. unfold remove_player. destruct (party_has u (party s)); [|reflexivity].
    rewrite Hst. cbn -[party_keys]. now rewrite party_alter_keys.
  - intros h Hh Hne. unfold remove_player. destruct (party_has u (party s)); [|exact Hh].
    destruct (started s); cbn -[party_keys].
    + now rewrite party_alter_keys.
    + destruct (party s) as [|[k v] p]; [discriminate|].
      cbn in Hh. injection Hh as ->. cbn.
      destruct (String.eqb_spec h u); [congruence | reflexivity].
Qed.

(** * Properties of [Scramble] and [ScrambleManager] *)

(** ** A new answer *)

Section NewAnswerFacts.

Variable banned_words : list string.
Variables (channel : string) (rands : nat -> Random.source) (sc : Scramble.t).

(** What the generator returns on its call number [k]. *)
Let draw (k : nat) : string := Scramble.generate sc channel (rands k).

Let at_draw (k : nat) : Scramble.t := Scramble.set_answer (Some (draw k)) sc.

Lemma banned_at_draw (k : nat) :
  Scramble.banned banned_words (at_draw k) = bool_decide (draw k ∈ banned_words).
Proof. reflexivity. Qed.

(** The loop returns at the first draw that is not banned. *)
Lemma new_answer_loop_ok (n : nat) :
  forall count fuel,
    (forall j, (count <= j < count + n)%nat -> draw j ∈ banned_words) ->
    draw (count + n) ∉ banned_words ->
    (count + n <= 100)%nat -> (n < fuel)%nat ->
    Scramble.new_answer_loop banned_words fuel channel rands count (at_draw count)
    = Scramble.Ok tt (at_draw (count + n)).
Proof.
  induction n as [|n IH]; intros count fuel Hb Hok Hle Hfuel;
    (destruct fuel as [|fuel]; [lia|]); cbn [Scramble.new_answer_loop];
    rewrite banned_at_draw.
  - rewrite Nat.add_0_r in *. now rewrite bool_decide_eq_false_2.
  - rewrite bool_decide_eq_true_2 by (apply Hb; lia).
    destruct (Nat.ltb_spec 100 (count + 1)); [lia|].
    change (Scramble.set_answer
              (Some (Scramble.generate (at_draw count) channel (rands (count + 1)%nat)))
              (at_draw count))
      with (at_draw (count + 1)).
    rewrite (IH (count + 1)%nat fuel).
    + do 2 f_equal. lia.
    + intros j Hj. apply Hb. lia.
    + now replace (count + 1 + n)%nat with (count + S n)%nat by lia.
    + lia.
    + lia.
Qed.

(** The loop gives up at the call that makes the count 101. *)
Lemma new_answer_loop_raise (m : nat) :
  forall count fuel,
    (count + m = 100)%nat ->
    (forall j, (count <= j <= 100)%nat -> draw j ∈ banned_words) ->
    (m < fuel)%nat ->
    Scramble.new_answer_loop banned_words fuel channel rands count (at_draw count)
    = Scramble.Raise Scramble.Exception (at_draw 101).
Proof.
  induction m as [|m IH]; intros count fuel Hc Hb Hfuel;
    (destruct fuel as [|fuel]; [lia|]); cbn [Scramble.new_answer_loop];
    rewrite banned_at_draw, bool_decide_eq_true_2 by (apply Hb; lia).
  - destruct (Nat.ltb_spec 100 (count + 1)); [|lia].
    replace (count + 1)%nat with 101%nat by lia. reflexivity.
  - destruct (Nat.ltb_spec 100 (count + 1)); [lia|].
    change (Scramble.set_answer
              (Some (Scramble.generate (at_draw count) channel (rands (count + 1)%nat)))
              (at_draw count))
      with (at_draw (count + 1)).
    apply IH; [lia | intros j Hj; apply Hb; lia | lia].
Qed.

(** X16.  [new_answer] always comes to an end: 101 tests of its loop
    are enough.  It keeps the first answer of the generator that is not
    banned, if there is one among the calls number 0 to 100, and sets the
    hint to one question mark for each character of it.  If those 101
    answers are all banned it raises [Exception] after one more call,
    whose answer it stores without looking at it, and leaves the hint as
    it was. *)
Theorem new_answer_spec (fuel : nat) :
  (101 <= fuel)%nat ->
  (forall k,
     (k <= 100)%nat -> draw k ∉ banned_words ->
     (forall j, (j < k)%nat -> draw j ∈ banned_words) ->
     Scramble.new_answer banned_words fuel channel rands sc
     = Scramble.Ok tt
         (Scramble.set_hint (Py.repeat_str "?" (Z.of_nat (String.length (draw k))))
            (Scramble.set_answer (Some (draw k)) sc)))
  /\ ((forall j, (j <= 100)%nat -> draw j ∈ banned_words) ->
      Scramble.new_answer banned_words fuel channel rands sc
      = Scramble.Raise Scramble.Exception (Scramble.set_answer (Some (draw 101)) sc))
  /\ ((exists k, (k <= 100)%nat /\ (draw k ∉ banned_words)
                 /\ (forall j, (j < k)%nat -> draw j ∈ banned_words))
      \/ (forall j, (j <= 100)%nat -> draw j ∈ banned_words)).
Proof.
  intros Hfuel. split; [|split].
  - intros k Hk Hok Hb. unfold Scramble.new_answer.
    change (Scramble.set_answer (Some (Scramble.generate sc channel (rands 0%nat))) sc)
      with (at_draw 0).
    rewrite (new_answer_loop_ok k 0 fuel); [reflexivity | | exact Hok | lia | lia].
    intros j Hj. apply Hb. lia.
  - intros Hb. unfold Scramble.new_answer.
    change (Scramble.set_answer (Some (Scramble.generate sc channel (rands 0%nat))) sc)
      with (at_draw 0).
    rewrite (new_answer_loop_raise 100 0 fuel); [reflexivity | lia | | lia].
    intros j Hj. apply Hb. lia.
  - destruct (List.existsb (fun k => negb (bool_decide (draw k ∈ banned_words))) (seq 0 101))
      eqn:Hex.
    + left. apply List.existsb_exists in Hex as (k0 & Hin & Hk0).
      apply List.in_seq in Hin.
      destruct (least_true (fun k => negb (bool_decide (draw k ∈ banned_words))) k0 Hk0)
        as (k & Hle & Hk & Hleast).
      exists k. split; [lia|]. split.
      * apply negb_true_iff in Hk. now apply bool_decide_eq_false_1 in Hk.
      * intros j Hj. specialize (Hleast j Hj). apply negb_false_iff in Hleast.
        now apply bool_decide_eq_true_1 in Hleast.
    + right. intros j Hj.
      destruct (bool_decide (draw j ∈ banned_words)) eqn:Hd;
        [now apply bool_decide_eq_true_1 in Hd|].
      assert (List.existsb (fun k => negb (bool_decide (draw k ∈ banned_words))) (seq 0 101)
              = true); [|congruence].
      apply List.existsb_exists. exists j. split; [apply List.in_seq; lia|]. now rewrite Hd.
Qed.

End NewAnswerFacts.

Lemma new_answer_spec_witness :
  Scramble.new_answer ["bad"] 101 "channel" (fun k _ => k)
    (Scramble.init "words"
       (Scramble.Plain (fun rand => if (rand 0 <? 2)%nat then "bad" else "abcdef"))
       1 Scramble.DEFAULT false)
  = Scramble.Ok tt
      (Scramble.mk "words" 1 Scramble.DEFAULT false (Some "abcdef") "??????"
         (Scramble.Plain (fun rand => if (rand 0 <? 2)%nat then "bad" else "abcdef"))).
Proof.
  refine (proj1 (new_answer_spec ["bad"] "channel" (fun k _ => k) _ 101 _) 2%nat _ _ _).
  - lia.
  - lia.
  - cbn. intros H. apply list_elem_of_In in H. cbn in H. intuition discriminate.
  - intros j Hj. destruct j as [|[|j]]; [| |lia]; apply list_elem_of_In; cbn; auto.
Defined.

(** ** Strings, position by position *)

Lemma take_length (i : nat) (s : string) :
  (i <= String.length s)%nat -> String.length (PyStr.take i s) = i.
Proof.
  revert s. induction i as [|i IH]; intros [|c s]; cbn; intros H; try reflexivity; try lia.
  f_equal. apply IH. lia.
Qed.

Lemma get_take (i j : nat) (s : string) :
  (j < i)%nat -> String.get j (PyStr.take i s) = String.get j s.
Proof.
  revert j s. induction i as [|i IH]; intros j [|c s] Hj; cbn; try reflexivity; try lia.
  destruct j as [|j]; [reflexivity|]. apply IH. lia.
Qed.

Lemma get_ge (i : nat) (s : string) : (String.length s <= i)%nat -> String.get i s = None.
Proof.
  revert i. induction s as [|c s IH]; intros i H; cbn; [reflexivity|].
  destruct i as [|i]; cbn in H; [lia|]. apply IH. lia.
Qed.

Lemma get_lt (i : nat) (s : string) :
  (i < String.length s)%nat -> exists c, String.get i s = Some c.
Proof.
  revert i. induction s as [|c s IH]; intros i H; cbn in *; [lia|].
  destruct i as [|i]; [eauto|]. apply IH. lia.
Qed.

Lemma get_Some_lt (i : nat) (s : string) (c : ascii) :
  String.get i s = Some c -> (i < String.length s)%nat.
Proof.
  intros H. destruct (Nat.lt_ge_cases i (String.length s)) as [Hlt|Hge]; [exact Hlt|].
  rewrite get_ge in H by exact Hge. discriminate.
Qed.

(** Question marks in a row. *)
Lemma repeat_str_S (s : string) (m : nat) :
  Py.repeat_str s (Z.of_nat (S m)) = s +:+ Py.repeat_str s (Z.of_nat m).
Proof. unfold Py.repeat_str. rewrite !Nat2Z.id. reflexivity. Qed.

Lemma repeat_str_0 (s : string) : Py.repeat_str s 0 = EmptyString.
Proof. reflexivity. Qed.

Lemma marks_length (m : nat) : String.length (Py.repeat_str "?" (Z.of_nat m)) = m.
Proof.
  induction m as [|m IH]; [reflexivity|].
  rewrite repeat_str_S, str_length_app, IH. reflexivity.
Qed.

Lemma marks_get (m j : nat) (c : ascii) :
  String.get j (Py.repeat_str "?" (Z.of_nat m)) = Some c -> c = "?"%char.
Proof.
  revert j. induction m as [|m IH]; intros j; [cbn; now destruct j|].
  rewrite repeat_str_S. change ("?" +:+ Py.repeat_str "?" (Z.of_nat m))
    with (String "?" (Py.repeat_str "?" (Z.of_nat m))).
  destruct j as [|j]; cbn; [now intros [= <-] | apply IH].
Qed.

(** Where [index] finds its argument. *)
Lemma index_Some (sub s : string) (i : nat) :
  PyStr.index sub s = Some i ->
  exists pre post, s = pre +:+ sub +:+ post /\ String.length pre = i.
Proof.
  revert i. induction s as [|c s IH]; intros i; cbn [PyStr.index].
  - destruct (String.prefix sub EmptyString) eqn:Hp; [|discriminate].
    intros [= <-]. apply prefix_app in Hp as [post Hp].
    exists EmptyString, post. split; [exact Hp | reflexivity].
  - destruct (String.prefix sub (String c s)) eqn:Hp.
    + intros [= <-]. apply prefix_app in Hp as [post Hp].
      exists EmptyString, post. split; [exact Hp | reflexivity].
    + destruct (PyStr.index sub s) as [i'|]; [|discriminate].
      intros [= <-]. destruct (IH i' eq_refl) as (pre & post & -> & Hlen).
      exists (String c pre), post. split; [reflexivity | cbn; now rewrite Hlen].
Qed.

Lemma index_contains (sub s : string) :
  Py.contains sub s = match PyStr.index sub s with Some _ => true | None => false end.
Proof.
  induction s as [|c s IH]; cbn [Py.contains PyStr.index].
  - now destruct (String.prefix sub EmptyString).
  - destruct (String.prefix sub (String c s)); [reflexivity|].
    cbn. rewrite IH. now destruct (PyStr.index sub s).
Qed.

Lemma get_middle (pre post : string) (c : ascii) :
  String.get (String.length pre) (pre +:+ String c post) = Some c.
Proof. induction pre as [|d pre IH]; [reflexivity|]. rewrite append_cons. exact IH. Qed.

Lemma index_mark (s : string) (i : nat) :
  PyStr.index "?" s = Some i -> String.get i s = Some "?"%char.
Proof.
  intros H. apply index_Some in H as (pre & post & -> & <-). apply get_middle.
Qed.

Lemma index_two_marks (s : string) (i : nat) :
  PyStr.index "??" s = Some i ->
  String.get (i + 1) s = Some "?"%char /\ Py.contains "?" s = true.
Proof.
  intros H. apply index_Some in H as (pre & post & -> & <-). split.
  - change (pre +:+ "??" +:+ post) with (pre +:+ "?" +:+ String "?" post).
    replace (pre +:+ "?" +:+ String "?" post)
      with ((pre +:+ "?") +:+ String "?" post).
    + replace (String.length pre + 1)%nat with (String.length (pre +:+ "?"))
        by (rewrite str_length_app; reflexivity).
      apply get_middle.
    + clear. induction pre as [|d pre IH]; [reflexivity|].
      rewrite !append_cons. now rewrite IH.
  - apply contains_spec. exists pre, (String "?" post). reflexivity.
Qed.

(** ** Hints *)

Lemma str_app_assoc (a b c : string) : (a +:+ b) +:+ c = a +:+ b +:+ c.
Proof. induction a as [|d a IH]; [reflexivity|]. rewrite !append_cons. now rewrite IH. Qed.

(** Revealing a position of the answer keeps the hint fitting. *)
Lemma reveal_fits (sc : Scramble.t) (a : string) (i : nat) :
  Scramble.hint_fits sc a -> (i < String.length a)%nat ->
  exists c sc',
    String.get i a = Some c
    /\ Scramble.reveal i sc = Scramble.Val sc'
    /\ Scramble.hint sc'
       = PyStr.take i (Scramble.hint sc) +:+ String c EmptyString
         +:+ Py.repeat_str "?" (Z.of_nat (String.length a - i - 1))
    /\ Scramble.hint_fits sc' a
    /\ sc' = Scramble.set_hint (Scramble.hint sc') sc.
Proof.
  intros (Ha & Hlen & Hchars) Hi.
  destruct (get_lt i a Hi) as [c Hc].
  unfold Scramble.reveal. rewrite Ha, Hc.
  replace (Z.of_nat (String.length a) - Z.of_nat i - 1)
    with (Z.of_nat (String.length a - i - 1)) by lia.
  set (m := (String.length a - i - 1)%nat).
  exists c. eexists. split; [reflexivity|]. split; [reflexivity|]. split; [reflexivity|].
  split; [|reflexivity].
  assert (Htl : String.length (PyStr.take i (Scramble.hint sc)) = i)
    by (apply take_length; lia).
  split; [exact Ha|]. cbn [Scramble.hint Scramble.set_hint]. split.
  - rewrite !str_length_app, Htl, marks_length. cbn. lia.
  - intros j d Hj.
    destruct (Nat.lt_trichotomy j i) as [Hlt | [-> | Hgt]].
    + rewrite <- append_correct1 in Hj by lia.
      rewrite get_take in Hj by exact Hlt. now apply Hchars.
    + right. rewrite <- Htl in Hj at 1.
      rewrite append_cons in Hj. change (EmptyString +:+ Py.repeat_str "?" (Z.of_nat m))
        with (Py.repeat_str "?" (Z.of_nat m)) in Hj.
      rewrite get_middle in Hj. congruence.
    + left. replace j with ((j - i) + String.length (PyStr.take i (Scramble.hint sc)))%nat
        in Hj by lia.
      rewrite <- append_correct2 in Hj.
      destruct (j - i)%nat as [|j'] eqn:Hji; [lia|].
      rewrite append_cons in Hj. cbn [String.get] in Hj.
      change (EmptyString +:+ Py.repeat_str "?" (Z.of_nat m))
        with (Py.repeat_str "?" (Z.of_nat m)) in Hj.
      now apply marks_get in Hj.
Qed.

(** X17.  While the hint fits the answer and still has a question mark,
    [update_hint] raises nothing, whichever the hint type: it returns the
    new hint, which again fits the answer (same length, each position the
    character of the answer or a question mark), and changes nothing but
    the hint. *)
Theorem update_hint_keeps_fit (sc : Scramble.t) (a : string) :
  Scramble.hint_fits sc a ->
  Scramble.hints_left sc = true ->
  exists sc',
    Scramble.update_hint sc = Scramble.Val (Scramble.hint sc', sc')
    /\ Scramble.hint_fits sc' a
    /\ sc' = Scramble.set_hint (Scramble.hint sc') sc.
Proof.
  intros Hfit Hleft. unfold Scramble.hints_left in Hleft.
  rewrite index_contains in Hleft.
  destruct (PyStr.index "?" (Scramble.hint sc)) as [i|] eqn:Hi; [|discriminate].
  pose proof Hfit as (Ha & Hlen & _).
  assert (Hdefault : exists sc', Scramble.default_hint sc = Scramble.Val sc'
                       /\ Scramble.hint_fits sc' a
                       /\ sc' = Scramble.set_hint (Scramble.hint sc') sc).
  { unfold Scramble.default_hint. rewrite Hi.
    apply index_mark, get_Some_lt in Hi. rewrite Hlen in Hi.
    destruct (reveal_fits sc a i Hfit Hi) as (c & sc' & _ & Hr & _ & Hfit' & Heq).
    exists sc'. auto. }
  assert (Hres : exists sc',
            match Scramble.hint_type sc with
            | Scramble.DEFAULT => Scramble.default_hint sc
            | Scramble.EVERY_OTHER => Scramble.every_other_hint sc
            end = Scramble.Val sc'
            /\ Scramble.hint_fits sc' a
            /\ sc' = Scramble.set_hint (Scramble.hint sc') sc).
  { destruct (Scramble.hint_type sc); [exact Hdefault|].
    unfold Scramble.every_other_hint.
    destruct (PyStr.index "??" (Scramble.hint sc)) as [i2|] eqn:Hi2; [|exact Hdefault].
    apply index_two_marks in Hi2 as [Hi2 _]. apply get_Some_lt in Hi2. rewrite Hlen in Hi2.
    destruct (reveal_fits sc a (i2 + 1) Hfit Hi2) as (c & sc' & _ & Hr & _ & Hfit' & Heq).
    exists sc'. rewrite Hr. auto. }
  destruct Hres as (sc' & Hr & Hfit' & Heq).
  exists sc'. unfold Scramble.update_hint. rewrite Hr. auto.
Qed.

Lemma update_hint_keeps_fit_witness :
  exists sc',
    Scramble.update_hint
      (Scramble.mk "words" 1 Scramble.EVERY_OTHER false (Some "abcd") "????"
         (Scramble.Plain (fun _ => "abcd")))
    = Scramble.Val (Scramble.hint sc', sc')
    /\ Scramble.hint_fits sc' "abcd".
Proof.
  destruct (update_hint_keeps_fit
              (Scramble.mk "words" 1 Scramble.EVERY_OTHER false (Some "abcd") "????"
                 (Scramble.Plain (fun _ => "abcd"))) "abcd") as (sc' & Hu & Hfit & _).
  - split; [reflexivity|]. split; [reflexivity|].
    intros i c Hc. left. cbn in Hc.
    destruct i as [|[|[|[|i]]]]; cbn in Hc; congruence.
  - reflexivity.
  - exists sc'. split; [exact Hu | exact Hfit].
Defined.

(** X18.  When the hint has no question mark left, [update_hint] raises
    [ValueError], whichever the hint type: the host has to ask
    [hints_left] first. *)
Theorem update_hint_without_marks (sc : Scramble.t) :
  Scramble.hints_left sc = false ->
  Scramble.update_hint sc = Scramble.Exc Scramble.ValueError.
Proof.
  unfold Scramble.hints_left. intros Hleft.
  assert (H1 : PyStr.index "?" (Scramble.hint sc) = None).
  { rewrite index_contains in Hleft. now destruct (PyStr.index "?" (Scramble.hint sc)). }
  assert (H2 : PyStr.index "??" (Scramble.hint sc) = None).
  { destruct (PyStr.index "??" (Scramble.hint sc)) as [i|] eqn:Hi; [|reflexivity].
    apply index_two_marks in Hi as [_ Hi]. congruence. }
  unfold Scramble.update_hint, Scramble.every_other_hint, Scramble.default_hint.
  rewrite H1, H2. now destruct (Scramble.hint_type sc).
Qed.

Lemma update_hint_without_marks_witness :
  Scramble.update_hint
    (Scramble.mk "words" 1 Scramble.EVERY_OTHER false (Some "ab") "ab"
       (Scramble.Plain (fun _ => "ab")))
  = Scramble.Exc Scramble.ValueError.
Proof. apply update_hint_without_marks. reflexivity. Defined.

(** ** Default hints, one after the other *)

Lemma contains_mark_cons (c : ascii) (s : string) :
  Py.contains "?" (String c s) = Ascii.eqb c "?" || Py.contains "?" s.
Proof.
  cbn [Py.contains String.prefix].
  destruct (Ascii.ascii_dec "?" c) as [<-|Hne].
  - now destruct s.
  - destruct (Ascii.eqb_spec c "?"); [congruence | reflexivity].
Qed.

Lemma index_mark_cons (c : ascii) (s : string) :
  PyStr.index "?" (String c s)
  = if Ascii.eqb c "?" then Some 0%nat else S <$> PyStr.index "?" s.
Proof.
  cbn [PyStr.index String.prefix].
  destruct (Ascii.ascii_dec "?" c) as [<-|Hne].
  - now destruct s.
  - destruct (Ascii.eqb_spec c "?"); [congruence | reflexivity].
Qed.

Lemma index_after_clean (p r : string) :
  Py.contains "?" p = false ->
  PyStr.index "?" (p +:+ String "?" r) = Some (String.length p).
Proof.
  induction p as [|c p IH]; intros Hc.
  - change (EmptyString +:+ String "?" r) with (String "?" r).
    now rewrite index_mark_cons.
  - rewrite contains_mark_cons in Hc. apply orb_false_iff in Hc as [Hc1 Hc2].
    rewrite append_cons, index_mark_cons, Hc1, (IH Hc2). reflexivity.
Qed.

Lemma contains_mark_take (k : nat) (a : string) :
  Py.contains "?" a = false -> Py.contains "?" (PyStr.take k a) = false.
Proof.
  revert a. induction k as [|k IH]; intros [|c a] Hc; try reflexivity.
  cbn [PyStr.take]. rewrite contains_mark_cons in *.
  apply orb_false_iff in Hc as [Hc1 Hc2]. now rewrite Hc1, (IH a Hc2).
Qed.

Lemma take_app_length (p q : string) : PyStr.take (String.length p) (p +:+ q) = p.
Proof.
  induction p as [|c p IH]; [now destruct q|].
  rewrite append_cons. cbn. now rewrite IH.
Qed.

Lemma take_S (k : nat) (a : string) (c : ascii) :
  String.get k a = Some c -> PyStr.take (S k) a = PyStr.take k a +:+ String c EmptyString.
Proof.
  revert a. induction k as [|k IH]; intros [|d a] H; try discriminate.
  - cbn in H. injection H as ->. now destruct a.
  - cbn in H. change (PyStr.take (S (S k)) (String d a)) with (String d (PyStr.take (S k) a)).
    rewrite (IH a H). reflexivity.
Qed.

Lemma take_all (a : string) : PyStr.take (String.length a) a = a.
Proof. induction a as [|c a IH]; [reflexivity|]. cbn. now rewrite IH. Qed.

Section DefaultHints.

Variable a : string.

Let n : nat := String.length a.

(** After [j] default hints the hint shows the first [j] characters. *)
Let shows (j : nat) (sc : Scramble.t) : Prop :=
  Scramble.hint_type sc = Scramble.DEFAULT
  /\ Scramble.answer sc = Some a
  /\ Scramble.hint sc = PyStr.take j a +:+ Py.repeat_str "?" (Z.of_nat (n - j)).

Lemma default_hint_next (j : nat) (sc : Scramble.t) :
  Py.contains "?" a = false -> shows j sc -> (j < n)%nat ->
  exists sc', Scramble.update_hint sc = Scramble.Val (Scramble.hint sc', sc')
              /\ shows (S j) sc'
              /\ sc' = Scramble.set_hint (Scramble.hint sc') sc.
Proof.
  intros Hclean (Hty & Ha & Hh) Hj.
  assert (Htl : String.length (PyStr.take j a) = j) by (apply take_length; fold n; lia).
  destruct (get_lt j a Hj) as [c Hc].
  assert (Hidx : PyStr.index "?" (Scramble.hint sc) = Some j).
  { rewrite Hh. replace (n - j)%nat with (S (n - j - 1)) by lia.
    rewrite repeat_str_S.
    change ("?" +:+ Py.repeat_str "?" (Z.of_nat (n - j - 1)))
      with (String "?" (Py.repeat_str "?" (Z.of_nat (n - j - 1)))).
    rewrite index_after_clean by now apply contains_mark_take. now rewrite Htl. }
  unfold Scramble.update_hint, Scramble.default_hint, Scramble.reveal.
  rewrite Hty, Hidx, Ha, Hc.
  eexists. split; [reflexivity|]. split; [|reflexivity].
  split; [exact Hty|]. split; [exact Ha|].
  cbn [Scramble.hint Scramble.set_hint]. rewrite Hh.
  rewrite <- Htl at 1. rewrite take_app_length.
  rewrite (take_S j a c Hc), str_app_assoc. fold n.
  replace (Z.of_nat n - Z.of_nat j - 1) with (Z.of_nat (n - S j)) by lia.
  reflexivity.
Qed.

Lemma default_hints_from (k : nat) :
  Py.contains "?" a = false ->
  forall j sc, shows j sc -> (j + k <= n)%nat ->
    exists sc', Scramble.update_hints k sc = Scramble.Val sc'
                /\ shows (j + k) sc'
                /\ sc' = Scramble.set_hint (Scramble.hint sc') sc.
Proof.
  intros Hclean. induction k as [|k IH]; intros j sc Hs Hle.
  - exists sc. rewrite Nat.add_0_r. split; [reflexivity|]. split; [exact Hs | now destruct sc].
  - destruct (default_hint_next j sc Hclean Hs) as (sc1 & Hu & Hs1 & Heq1); [lia|].
    destruct (IH (S j) sc1 Hs1) as (sc2 & Hu2 & Hs2 & Heq2); [lia|].
    exists sc2. cbn [Scramble.update_hints]. rewrite Hu, Hu2.
    replace (j + S k)%nat with (S j + k)%nat by lia.
    split; [reflexivity|]. split; [exact Hs2|].
    rewrite Heq2 at 1. rewrite Heq1. reflexivity.
Qed.

(** X19.  With the default hint type, an answer that has no question
    mark of its own and a hint of question marks only, as [new_answer]
    leaves it: [k] calls of [update_hint] show the first [k] characters
    of the answer and hide the rest.  After as many calls as the answer
    is long the hint is the answer, no hint is left, and one more call
    raises [ValueError]. *)
Theorem default_hints_reveal (sc : Scramble.t) :
  Scramble.hint_type sc = Scramble.DEFAULT ->
  Scramble.answer sc = Some a ->
  Scramble.hint sc = Py.repeat_str "?" (Z.of_nat (String.length a)) ->
  Py.contains "?" a = false ->
  (forall k, (k <= String.length a)%nat ->
     Scramble.update_hints k sc
     = Scramble.Val
         (Scramble.set_hint
            (PyStr.take k a +:+ Py.repeat_str "?" (Z.of_nat (String.length a - k))) sc))
  /\ Scramble.update_hints (String.length a) sc = Scramble.Val (Scramble.set_hint a sc)
  /\ Scramble.hints_left (Scramble.set_hint a sc) = false
  /\ Scramble.update_hint (Scramble.set_hint a sc) = Scramble.Exc Scramble.ValueError.
Proof.
  intros Hty Ha Hh Hclean.
  assert (Hs0 : shows 0 sc).
  { split; [exact Hty|]. split; [exact Ha|]. rewrite Hh, Nat.sub_0_r. unfold n. now destruct a. }
  assert (Hk : forall k, (k <= String.length a)%nat ->
            Scramble.update_hints k sc
            = Scramble.Val
                (Scramble.set_hint
                   (PyStr.take k a +:+ Py.repeat_str "?" (Z.of_nat (String.length a - k))) sc)).
  { intros k Hle. destruct (default_hints_from k Hclean 0 sc Hs0) as (sc' & Hu & Hs & Heq);
      [fold n in Hle; lia|].
    rewrite Hu, Heq. destruct Hs as (_ & _ & ->). reflexivity. }
  split; [exact Hk|].
  assert (Hleft : Scramble.hints_left (Scramble.set_hint a sc) = false) by exact Hclean.
  split.
  { rewrite Hk by lia. rewrite Nat.sub_diag, take_all, repeat_str_0, append_nil_r. reflexivity. }
  split; [exact Hleft|].
  unfold Scramble.update_hint, Scramble.default_hint. cbn [Scramble.hint_type Scramble.set_hint
    Scramble.hint].
  rewrite Hty. rewrite index_contains in Hclean.
  now destruct (PyStr.index "?" a).
Qed.

End DefaultHints.

Lemma default_hints_reveal_witness :
  Scramble.update_hints 3
    (Scramble.mk "words" 1 Scramble.DEFAULT false (Some "abc") "???"
       (Scramble.Plain (fun _ => "abc")))
  = Scramble.Val
      (Scramble.mk "words" 1 Scramble.DEFAULT false (Some "abc") "abc"
         (Scramble.Plain (fun _ => "abc"))).
Proof.
  refine (proj1 (proj2 (default_hints_reveal "abc"
            (Scramble.mk "words" 1 Scramble.DEFAULT false (Some "abc") "???"
               (Scramble.Plain (fun _ => "abc"))) _ _ _ _))); reflexivity.
Defined.

(** ** The manager *)

Lemma lookup_store_eq (identifier : string) (sc sc0 : Scramble.t) (m : ScrambleManager.t) :
  ScrambleManager.lookup identifier m = Some sc0 ->
  ScrambleManager.lookup identifier (ScrambleManager.store identifier sc m) = Some sc.
Proof.
  induction m as [|[k v] m IH]; cbn; [discriminate|].
  destruct (String.eqb k identifier) eqn:Hk; cbn; rewrite Hk; [reflexivity | exact IH].
Qed.

Lemma lookup_store_ne (identifier other : string) (sc : Scramble.t) (m : ScrambleManager.t) :
  other <> identifier ->
  ScrambleManager.lookup other (ScrambleManager.store identifier sc m)
  = ScrambleManager.lookup other m.
Proof.
  intros Hne. induction m as [|[k v] m IH]; cbn; [reflexivity|].
  destruct (String.eqb_spec k identifier) as [->|Hk]; cbn.
  - destruct (String.eqb_spec identifier other); [congruence | reflexivity].
  - destruct (String.eqb k other); [reflexivity | exact IH].
Qed.

Lemma new_answer_loop_result (banned_words : list string) (fuel : nat) (channel : string)
    (rands : nat -> Random.source) (count : nat) (sc sc' : Scramble.t) :
  Scramble.new_answer_loop banned_words fuel channel rands count sc = Scramble.Ok tt sc' ->
  Scramble.banned banned_words sc' = false
  /\ sc' = Scramble.set_answer (Scramble.answer sc') sc.
Proof.
  revert count sc. induction fuel as [|fuel IH]; intros count sc;
    cbn [Scramble.new_answer_loop]; [discriminate|].
  destruct (Scramble.banned banned_words sc) eqn:Hb.
  - destruct (100 <? count + 1)%nat; [discriminate|].
    intros H. apply IH in H as [Hb' Heq]. split; [exact Hb'|].
    rewrite Heq at 1. reflexivity.
  - intros [= <-]. split; [exact Hb | now destruct sc].
Qed.

Lemma new_answer_result (banned_words : list string) (fuel : nat) (channel : string)
    (rands : nat -> Random.source) (sc sc' : Scramble.t) :
  Scramble.new_answer banned_words fuel channel rands sc = Scramble.Ok tt sc' ->
  exists a,
    (a ∉ banned_words)
    /\ sc' = Scramble.set_hint (Py.repeat_str "?" (Z.of_nat (String.length a)))
               (Scramble.set_answer (Some a) sc).
Proof.
  unfold Scramble.new_answer.
  destruct (Scramble.new_answer_loop _ _ _ _ _ _) as [[] sc1|e sc1|] eqn:Hloop; try discriminate.
  apply new_answer_loop_result in Hloop as [Hb Heq].
  destruct (Scramble.answer sc1) as [a|] eqn:Ha; [|discriminate].
  intros [= <-]. exists a. split.
  - unfold Scramble.banned in Hb. rewrite Ha in Hb. now apply bool_decide_eq_false_1 in Hb.
  - rewrite Heq at 1. reflexivity.
Qed.

Lemma length_list_ascii (s : string) : String.length s = length (list_ascii_of_string s).
Proof. induction s as [|c s IH]; cbn; [reflexivity | now rewrite IH]. Qed.

(** X20.  [get_scramble] raises [KeyError] for an identifier without a
    scramble and then changes nothing.  When it returns a word, the
    scramble under the identifier has a new answer that is not banned
    and a hint of question marks as long as the answer; the word is made
    of the characters of the answer, each as often as it occurs there;
    the scrambles under other identifiers are as before. *)
Theorem get_scramble_spec (banned_words : list string) (fuel : nat)
    (identifier channel : string) (rands : nat -> Random.source) (rand : Random.source)
    (m : ScrambleManager.t) :
  (ScrambleManager.lookup identifier m = None ->
   ScrambleManager.get_scramble banned_words fuel identifier channel rands rand m
   = ScrambleManager.Raise Scramble.KeyError m)
  /\ (forall w m',
        ScrambleManager.get_scramble banned_words fuel identifier channel rands rand m
        = ScrambleManager.Ok w m' ->
        exists sc sc' a,
          ScrambleManager.lookup identifier m = Some sc
          /\ ScrambleManager.lookup identifier m' = Some sc'
          /\ Scramble.answer sc' = Some a
          /\ (a ∉ banned_words)
          /\ Scramble.hint sc' = Py.repeat_str "?" (Z.of_nat (String.length a))
          /\ list_ascii_of_string w ≡ₚ list_ascii_of_string a
          /\ String.length w = String.length a
          /\ forall other, other <> identifier ->
               ScrambleManager.lookup other m' = ScrambleManager.lookup other m).
Proof.
  unfold ScrambleManager.get_scramble. split.
  - intros ->. reflexivity.
  - intros w m'. destruct (ScrambleManager.lookup identifier m) as [sc|] eqn:Hsc; [|discriminate].
    destruct (Scramble.new_answer banned_words fuel channel rands sc) as [[] sc'|e sc'|] eqn:Hnew;
      try discriminate.
    apply new_answer_result in Hnew as (a & Hnb & ->).
    cbn [Scramble.answer Scramble.set_hint Scramble.set_answer].
    intros [= <- <-]. exists sc. eexists. exists a.
    split; [reflexivity|]. split; [now apply (lookup_store_eq identifier _ sc)|].
    split; [reflexivity|]. split; [exact Hnb|]. split; [reflexivity|].
    rewrite list_ascii_of_string_of_list_ascii.
    split; [apply shuffle_perm|]. split.
    + rewrite !length_list_ascii, list_ascii_of_string_of_list_ascii.
      apply Permutation_length, shuffle_perm.
    + intros other Hne. now apply lookup_store_ne.
Qed.

(** ** Checking a guess *)

Lemma count_no_mark (s : string) : Py.contains "?" s = false -> PyStr.count "?" s = 0%nat.
Proof.
  induction s as [|c s IH]; [reflexivity|].
  rewrite contains_mark_cons. intros H. apply orb_false_iff in H as [H1 H2].
  cbn [PyStr.count]. now rewrite H1, (IH H2).
Qed.

Lemma randint_5_10_range (rand : Random.source) : 5 <= ScrambleManager.randint_5_10 rand <= 10.
Proof.
  unfold ScrambleManager.randint_5_10, Random.randbelow.
  pose proof (Nat.mod_upper_bound (rand 6%nat) 6 ltac:(lia)). lia.
Qed.

(** X21.  With a scramble under the identifier and an answer that is not
    empty: a guess equal to the answer is rewarded whatever the case
    setting; a guess whose lowercase is the lowercase of the answer is
    rewarded when the scramble is not case sensitive; any other guess
    gets nothing.  The reward is [round(p / n * m)] for the product [p]
    of a number drawn from 5 to 10, the number of characters of the
    answer that are not blanks and the number of question marks in the
    hint, the length [n] of the answer and the difficulty multiplier [m].
    When the hint has no question mark left, [p] is 0, and so is the
    reward if rounding [0 / n * m] gives 0.  All this holds whatever the
    functions [str.lower] and [round(p / n * m)] are. *)
Theorem check_answer_spec (py_lower : string -> string) (py_reward : Z -> Z -> Q -> Z)
    (identifier guess : string) (rand : Random.source)
    (m : ScrambleManager.t) (sc : Scramble.t) (a : string) :
  ScrambleManager.lookup identifier m = Some sc ->
  Scramble.answer sc = Some a ->
  a <> EmptyString ->
  let p := ScrambleManager.randint_5_10 rand
           * Z.of_nat (String.length (PyStr.remove " " a))
           * Z.of_nat (PyStr.count "?" (Scramble.hint sc)) in
  let n := Z.of_nat (String.length a) in
  let reward := py_reward p n (Scramble.difficulty_multiplier sc) in
  let result := ScrambleManager.check_answer py_lower py_reward identifier guess rand m in
  5 <= ScrambleManager.randint_5_10 rand <= 10
  /\ (guess = a -> result = Scramble.Val (Some reward))
  /\ (py_lower guess = py_lower a -> Scramble.case_sensitive sc = false ->
      result = Scramble.Val (Some reward))
  /\ (guess <> a ->
      Scramble.case_sensitive sc = true \/ py_lower guess <> py_lower a ->
      result = Scramble.Val None)
  /\ (Scramble.hints_left sc = false ->
      p = 0
      /\ forall z, result = Scramble.Val (Some z) ->
                   z = py_reward 0 n (Scramble.difficulty_multiplier sc))
  /\ ((forall n' m', py_reward 0 n' m' = 0) ->
      Scramble.hints_left sc = false ->
      forall z, result = Scramble.Val (Some z) -> z = 0).
Proof.
  intros Hsc Ha Hne p n reward result.
  unfold result, ScrambleManager.check_answer. rewrite Hsc, Ha.
  assert (Hlen : (String.length a =? 0)%nat = false).
  { destruct a; [congruence | reflexivity]. }
  rewrite Hlen. fold p n reward.
  assert (Hp : Scramble.hints_left sc = false -> p = 0).
  { intros Hleft. unfold Scramble.hints_left in Hleft. unfold p.
    rewrite (count_no_mark _ Hleft). apply Z.mul_0_r. }
  split; [apply randint_5_10_range|].
  split; [intros ->; now rewrite (String.eqb_refl a), orb_true_r|].
  split; [intros Hl Hcs; now rewrite Hl, String.eqb_refl, Hcs|].
  split.
  { intros Hg Hor. apply String.eqb_neq in Hg. rewrite Hg, orb_false_r.
    destruct Hor as [-> | Hl].
    - now rewrite andb_false_r.
    - apply String.eqb_neq in Hl. now rewrite Hl. }
  split.
  - intros Hleft. split; [now apply Hp|].
    intros z. destruct (_ || _); [|discriminate]. intros [= <-].
    unfold reward. now rewrite (Hp Hleft).
  - intros Hzero Hleft z. destruct (_ || _); [|discriminate]. intros [= <-].
    unfold reward. rewrite (Hp Hleft). apply Hzero.
Qed.

Lemma check_answer_spec_witness :
  ScrambleManager.check_answer Py.ascii_fold reward_whole "words" "ABC" largest
    [("words", Scramble.mk "words" 1 Scramble.DEFAULT false (Some "abc") "a??"
                 (Scramble.Plain (fun _ => "abc")))]
  = Scramble.Val (Some 20).
Proof.
  refine (proj1 (proj2 (proj2 (check_answer_spec Py.ascii_fold reward_whole "words" "ABC" largest
            [("words", Scramble.mk "words" 1 Scramble.DEFAULT false (Some "abc") "a??"
                         (Scramble.Plain (fun _ => "abc")))]
            (Scramble.mk "words" 1 Scramble.DEFAULT false (Some "abc") "a??"
               (Scramble.Plain (fun _ => "abc")))
            "abc" eq_refl eq_refl _)))
            eq_refl eq_refl).
  discriminate.
Defined.

(** X22.  [check_answer] raises [KeyError] for an identifier without a
    scramble and [AttributeError] when the scramble has no answer yet.
    With the empty string as answer, the empty guess raises
    [ZeroDivisionError] and every other guess gets nothing: the
    lowercase of a guess that is not empty is not the lowercase of the
    empty string. *)
Theorem check_answer_errors (py_lower : string -> string) (py_reward : Z -> Z -> Q -> Z)
    (identifier guess : string) (rand : Random.source) (m : ScrambleManager.t) :
  let result := ScrambleManager.check_answer py_lower py_reward identifier guess rand m in
  (ScrambleManager.lookup identifier m = None -> result = Scramble.Exc Scramble.KeyError)
  /\ (forall sc, ScrambleManager.lookup identifier m = Some sc ->
        Scramble.answer sc = None ->
        result = Scramble.Exc Scramble.AttributeError)
  /\ (forall sc, ScrambleManager.lookup identifier m = Some sc ->
        Scramble.answer sc = Some EmptyString ->
        (guess = EmptyString -> result = Scramble.Exc Scramble.ZeroDivisionError)
        /\ (guess <> EmptyString ->
            Scramble.case_sensitive sc = true \/ py_lower guess <> py_lower EmptyString ->
            result = Scramble.Val None)
        /\ ((forall text, py_lower text = py_lower EmptyString -> text = EmptyString) ->
            guess <> EmptyString -> result = Scramble.Val None)).
Proof.
  intros result. unfold result, ScrambleManager.check_answer. split; [|split].
  - now intros ->.
  - now intros sc -> ->.
  - intros sc -> ->.
    assert (Hnone : guess <> EmptyString ->
              Scramble.case_sensitive sc = true \/ py_lower guess <> py_lower EmptyString ->
              (if (String.eqb (py_lower guess) (py_lower EmptyString)
                   && negb (Scramble.case_sensitive sc)) || String.eqb guess EmptyString
               then if (String.length EmptyString =? 0)%nat
                    then Scramble.Exc Scramble.ZeroDivisionError
                    else Scramble.Val (Some (py_reward
                           (ScrambleManager.randint_5_10 rand
                            * Z.of_nat (String.length (PyStr.remove " " EmptyString))
                            * Z.of_nat (PyStr.count "?" (Scramble.hint sc)))
                           (Z.of_nat (String.length EmptyString))
                           (Scramble.difficulty_multiplier sc)))
               else Scramble.Val None) = Scramble.Val None).
    { intros Hg Hor. apply String.eqb_neq in Hg. rewrite Hg, orb_false_r.
      destruct Hor as [-> | Hl].
      - now rewrite andb_false_r.
      - apply String.eqb_neq in Hl. now rewrite Hl. }
    split; [|split].
    + intros ->. cbn. now rewrite orb_true_r.
    + exact Hnone.
    + intros Hinj Hg. apply Hnone; [exact Hg|]. right. intros H. apply Hg, Hinj, H.
Qed.

Lemma next_player_alone_witness :
  next_player 1000 1%Q (remove_player "b" two_started) = OutOfFuel.
Proof.
  apply (next_player_alone (remove_player "b" two_started) 1%Q (BombPartyPlayer.mk "a" 3)).
  - reflexivity.
  - intros i Hi. destruct i as [|[|i]].
    + exists (BombPartyPlayer.mk "a" 3). split; [reflexivity | right; reflexivity].
    + exists (BombPartyPlayer.mk "b" 0). split; [reflexivity | left; reflexivity].
    + cbn in Hi. lia.
Defined.
